(** * sugarmaker, WASM build: nonce scan, digest comparison, scratch regions

    A shallow embedding of
      - [src/wasm/src/fulltest.c]                    ([fulltest]),
      - [src/wasm/src/wasm-wrapper.c]                ([scan_tidecoin_hash],
        [get_hashes_done]),
      - [src/wasm/yespower-1.0.1/yespower-platform.c] ([alloc_region],
        [init_region], [free_region]).

    Conventions.  A [uint32_t] is a [Z] in [0, 2^32) and every C operation
    that can leave that range is followed by [wrap32].  A [uint8_t] buffer
    is a [list byte]; a read outside the list yields 0 and a write outside
    it is dropped (the C program has no defined behaviour there).  The
    target is wasm32: linear memory is little-endian, so a [uint32_t]
    lvalue laid over a byte buffer is read and written least significant
    byte first, and [size_t] and pointers are 32 bits wide. *)

From Stdlib Require Import ZArith Lia List.
From stdpp Require Import base list.
From coqutil Require Import Byte.

Local Open Scope Z_scope.

(** ** Machine integers *)

Definition wrap32 (z : Z) : Z := z mod 2 ^ 32.

Definition is_u32 (z : Z) : Prop := 0 <= z < 2 ^ 32.

(** ** Byte buffers *)

(** [p[i]] as an unsigned value. *)
Definition byte_at (p : list byte) (i : nat) : Z :=
  match p !! i with
  | Some b => byte.unsigned b
  | None => 0
  end.

(** [p[i] = v] for a [uint8_t] lvalue: the value is truncated to 8 bits. *)
Definition set_byte (p : list byte) (i : nat) (v : Z) : list byte :=
  <[i := byte.of_Z v]> p.

(** [memcpy(dst, src, n)]. *)
Definition memcpy (dst src : list byte) (n : nat) : list byte :=
  take n src ++ drop n dst.

(** Modelled from the spec: [le32dec] is declared in [miner.h], which is not
    part of the sources at hand.  The spec reads it as "decoded as a 32-bit
    little-endian value": byte 0 is the least significant. *)
Definition le32dec (p : list byte) (off : nat) : Z :=
  byte_at p off
  + Z.shiftl (byte_at p (off + 1)) 8
  + Z.shiftl (byte_at p (off + 2)) 16
  + Z.shiftl (byte_at p (off + 3)) 24.

(** Modelled from the spec: [le32enc] is declared in [miner.h], which is not
    part of the sources at hand.  The spec does not describe it by name; it
    is taken as what its name says, the little-endian encoder that inverts
    [le32dec]: byte 0 receives the least significant 8 bits. *)
Definition le32enc (p : list byte) (off : nat) (x : Z) : list byte :=
  let p := set_byte p off (Z.land x 255) in
  let p := set_byte p (off + 1) (Z.land (Z.shiftr x 8) 255) in
  let p := set_byte p (off + 2) (Z.land (Z.shiftr x 16) 255) in
  set_byte p (off + 3) (Z.land (Z.shiftr x 24) 255).

(** Modelled from the spec: [be32enc] is declared in [miner.h], which is not
    part of the sources at hand.  The spec has the nonce written "in
    big-endian order": byte 0 receives the most significant 8 bits. *)
Definition be32enc (p : list byte) (off : nat) (x : Z) : list byte :=
  let p := set_byte p (off + 3) (Z.land x 255) in
  let p := set_byte p (off + 2) (Z.land (Z.shiftr x 8) 255) in
  let p := set_byte p (off + 1) (Z.land (Z.shiftr x 16) 255) in
  set_byte p off (Z.land (Z.shiftr x 24) 255).

(** A [uint32_t *] view of a byte buffer on the little-endian host:
    [((uint32_t * )p)[i]] as an rvalue and as an lvalue. *)
Definition load_u32 (p : list byte) (i : nat) : Z := le32dec p (4 * i).

Definition store_u32 (p : list byte) (i : nat) (v : Z) : list byte :=
  le32enc p (4 * i) v.

(** The first [n] words seen through a [uint32_t *]. *)
Definition as_u32 (p : list byte) (n : nat) : list Z :=
  map (load_u32 p) (seq 0 n).

(** ** fulltest.c *)

(** The loop [for (i = 7; i >= 0; i--)] with [k = i + 1] limbs still to
    look at; falling out of the loop leaves [rc = true]. *)
Fixpoint fulltest_loop (k : nat) (hash target : list Z) : bool :=
  match k with
  | O => true
  | S i =>
      if nth i hash 0 >? nth i target 0 then false
      else if nth i hash 0 <? nth i target 0 then true
      else fulltest_loop i hash target
  end.

Definition fulltest (hash target : list Z) : bool :=
  fulltest_loop 8 hash target.

(** The unsigned integer whose limbs are [w], least significant first (so
    index 7 of an 8-word array is the most significant limb). *)
Definition big_int (w : list Z) : Z :=
  fold_right (fun x acc => x + 2 ^ 32 * acc) 0 w.

(** The value of the [k] lowest limbs. *)
Fixpoint low_limbs (k : nat) (w : list Z) : Z :=
  match k with
  | O => 0
  | S i => low_limbs i w + nth i w 0 * 2 ^ (32 * Z.of_nat i)
  end.

(** ** wasm-wrapper.c *)

(** What the scan can see and change outside its own frame: the 80 bytes at
    [block_data_ptr], the 32 bytes at [target_ptr] (two disjoint buffers in
    the caller's heap) and the file-scope counter [hashes_done]. *)
Record wasm_state := {
  block_data_ptr : list byte;
  target_ptr : list byte;
  hashes_done : Z
}.

(** One call of [scan_tidecoin_hash]: the returned [int], the memory it
    leaves, and two observations of the run that the C program does not
    return: the value of the local [n] at the [return], and the buffers
    handed to [yespower_tls], in call order. *)
Record scan_result := {
  ret : Z;
  mem : wasm_state;
  last_n : Z;
  hashed : list (list byte)
}.

Section Scan.

(** [yespower_tls(data.u8, 80, &params, &hash.yb)] with the fixed [params]
    of the wrapper: [None] when it returns non-zero, [Some] of the digest
    left in [hash.yb] when it returns 0.  It is declared in [yespower.h]
    and is an external collaborator of the scan. *)
Variable yespower_tls : list byte -> option (list byte).

(** The local [data] before the loop: [memcpy], then words 0..18 rewritten
    through [le32dec]. *)
Definition prepare_data (block_data : list byte) : list byte :=
  let data := memcpy (replicate 80 Byte.x00) block_data 80 in
  fold_left
    (fun data i => store_u32 data i (le32dec block_data (i * 4)))
    (seq 0 19) data.

(** [for (i = 0; i < 8; i++) hash.u32[i] = le32dec(&hash.u32[i]);] *)
Definition normalize_hash (hash : list byte) : list byte :=
  fold_left
    (fun hash i => store_u32 hash i (le32dec hash (4 * i)))
    (seq 0 8) hash.

(** The two nested [if]s of the loop body: does this digest end the scan
    with [return 1]? *)
Definition accepts (Htarg : Z) (target hash : list byte) : bool :=
  if le32dec hash (4 * 7) <=? Htarg then
    fulltest (as_u32 (normalize_hash hash) 8) (as_u32 target 8)
  else false.

(** The [do { ... } while (n < max_nonce)] loop.  [n] is the value of the
    local before [++n]; [fuel] bounds the number of iterations and [None]
    means it ran out. *)
Fixpoint scan_loop (fuel : nat) (st : wasm_state) (start_nonce max_nonce : Z)
    (Htarg : Z) (data : list byte) (n : Z) (log : list (list byte))
    : option scan_result :=
  match fuel with
  | O => None
  | S fuel' =>
      let n := wrap32 (n + 1) in
      let data := be32enc data (4 * 19) n in
      let log := log ++ [data] in
      match yespower_tls data with
      | None =>
          Some {| ret := -1; mem := st; last_n := n; hashed := log |}
      | Some hash =>
          if accepts Htarg (target_ptr st) hash then
            Some {| ret := 1;
                    mem := {| block_data_ptr :=
                                le32enc (block_data_ptr st) (19 * 4) n;
                              target_ptr := target_ptr st;
                              hashes_done := wrap32 (n - start_nonce + 1) |};
                    last_n := n;
                    hashed := log |}
          else if n <? max_nonce then
            scan_loop fuel' st start_nonce max_nonce Htarg data n log
          else
            Some {| ret := 0;
                    mem := {| block_data_ptr := block_data_ptr st;
                              target_ptr := target_ptr st;
                              hashes_done := wrap32 (n - start_nonce + 1) |};
                    last_n := n;
                    hashed := log |}
      end
  end.

(** The exported function.  The loop is given one iteration per nonce of
    [start_nonce .. max_nonce] (one when the range is empty), which is all
    it ever takes: see [scan_as_search]. *)
Definition scan_tidecoin_hash (st : wasm_state) (start_nonce max_nonce : Z)
    : option scan_result :=
  let n := wrap32 (start_nonce - 1) in
  let Htarg := load_u32 (target_ptr st) 7 in
  let data := prepare_data (block_data_ptr st) in
  scan_loop (S (Z.to_nat (max_nonce - start_nonce)))
    st start_nonce max_nonce Htarg data n [].

Definition get_hashes_done (st : wasm_state) : Z := hashes_done st.

(** [compute_single_hash]: the 80 bytes at [block_data_ptr] go to the
    oracle and, when it succeeds, [memcpy] puts the 32 bytes of the digest
    at [hash_output_ptr].  The pair is the returned [int] and the output
    buffer after the call. *)
Definition compute_single_hash (block_data hash_output : list byte)
    : Z * list byte :=
  match yespower_tls (take 80 block_data) with
  | None => (-1, hash_output)
  | Some hash => (0, memcpy hash_output hash 32)
  end.

(** The buffer hashed for nonce [n] in a scan of header [block_data]. *)
Definition header_for (block_data : list byte) (n : Z) : list byte :=
  be32enc (prepare_data block_data) (4 * 19) n.

(** The verdict of one loop iteration on nonce [n]: [None] when the oracle
    fails, otherwise whether the digest is accepted. *)
Definition try_nonce (st : wasm_state) (n : Z) : option bool :=
  match yespower_tls (header_for (block_data_ptr st) n) with
  | None => None
  | Some hash =>
      Some (accepts (load_u32 (target_ptr st) 7) (target_ptr st) hash)
  end.

(** Linear search over the nonces [m, m+1, ..., m+k]: where it stops and
    with which return code.  The loop is compared with it below. *)
Fixpoint search (st : wasm_state) (k : nat) (m : Z) : Z * Z :=
  match try_nonce st m with
  | None => (-1, m)
  | Some true => (1, m)
  | Some false =>
      match k with
      | O => (0, m)
      | S k' => search st k' (m + 1)
      end
  end.

(** The result of a scan that started hashing at nonce [m] with the oracle
    log at [log], when the search stops at [nf] with return code [rc]. *)
Definition result_of_search (st : wasm_state) (start_nonce : Z)
    (log : list (list byte)) (m : Z) (stop : Z * Z) : scan_result :=
  let '(rc, nf) := stop in
  {| ret := rc;
     mem :=
       if rc =? -1 then st
       else
         {| block_data_ptr :=
              if rc =? 1 then le32enc (block_data_ptr st) (19 * 4) nf
              else block_data_ptr st;
            target_ptr := target_ptr st;
            hashes_done := wrap32 (nf - start_nonce + 1) |};
     last_n := nf;
     hashed :=
       log ++ map (header_for (block_data_ptr st)) (seqZ m (nf - m + 1)) |}.

End Scan.

(** ** yespower-platform.c *)

(** [yespower_region_t]; pointers are addresses and [NULL] is 0. *)
Record yespower_region_t := {
  base : Z;
  aligned : Z;
  base_size : Z;
  aligned_size : Z
}.

Section Region.

(** The C allocator: [malloc n h] is the returned address (0 for [NULL])
    and the allocator state after the call, [free p h] the state after
    [free(p)]. *)
Context {heap : Type}.
Variable malloc : Z -> heap -> Z * heap.
Variable free : Z -> heap -> heap.

Definition alloc_region (region : yespower_region_t) (size : Z) (h : heap)
    : Z * yespower_region_t * heap :=
  let '(base0, h) := malloc (wrap32 (size + 63)) h in
  let '(base0, aligned0) :=
    if negb (base0 =? 0) then
      let aligned0 := wrap32 (base0 + 63) in
      let aligned0 := wrap32 (aligned0 - Z.land aligned0 63) in
      (base0, aligned0)
    else (0, 0) in
  let region :=
    {| base := base0;
       aligned := aligned0;
       base_size := if negb (base0 =? 0) then wrap32 (size + 63) else 0;
       aligned_size := if negb (base0 =? 0) then size else 0 |} in
  (aligned0, region, h).

Definition init_region (region : yespower_region_t) : yespower_region_t :=
  {| base := 0; aligned := 0; base_size := 0; aligned_size := 0 |}.

Definition free_region (region : yespower_region_t) (h : heap)
    : Z * yespower_region_t * heap :=
  let h := if negb (base region =? 0) then free (base region) h else h in
  (0, init_region region, h).

End Region.

(** ** wasm-wrapper.c: size accessors *)

Definition get_hash_size : Z := 32.

Definition get_block_size : Z := 80.

(** ** Reading a buffer as one number *)

(** The unsigned integer held in the first [n] bytes of [p], least
    significant byte first. *)
Definition le_bytes_value (p : list byte) (n : nat) : Z :=
  fold_right (fun b acc => b + 256 * acc) 0 (map (byte_at p) (seq 0 n)).

(** ** Concrete instances

    Small oracles, memories and an allocator on which the statements below
    are exercised. *)

(** An oracle whose digest is all zero: every target accepts it. *)
Definition zero_oracle : list byte -> option (list byte) :=
  fun _ => Some (replicate 32 Byte.x00).

(** An oracle whose digest is all ones: a target below [2^256 - 2^224]
    never accepts it. *)
Definition ones_oracle : list byte -> option (list byte) :=
  fun _ => Some (replicate 32 Byte.xff).

(** An oracle that answers by the last header byte (the low byte of the
    big-endian nonce): failure at 12, the all-zero digest at 7, all ones
    otherwise. *)
Definition demo_oracle : list byte -> option (list byte) :=
  fun data =>
    if byte_at data 79 =? 12 then None
    else if byte_at data 79 =? 7 then Some (replicate 32 Byte.x00)
    else Some (replicate 32 Byte.xff).

(** A zero header with the target [2^224 - 1] (top word zero) and a fresh
    counter. *)
Definition demo_state : wasm_state :=
  {| block_data_ptr := replicate 80 Byte.x00;
     target_ptr := replicate 28 Byte.xff ++ replicate 4 Byte.x00;
     hashes_done := 0 |}.

(** The same header and target with a stale nonce in bytes 76..79. *)
Definition demo_state_stale : wasm_state :=
  {| block_data_ptr :=
       replicate 76 Byte.x00 ++ [Byte.xde; Byte.xad; Byte.xbe; Byte.xef];
     target_ptr := replicate 28 Byte.xff ++ replicate 4 Byte.x00;
     hashes_done := 42 |}.

(** A bump allocator over the addresses [next .. 0x10000) that also
    records, most recent first, the pointers passed to [free]. *)
Record bump_heap := { next : Z; released : list Z }.

Definition bump_malloc (n : Z) (h : bump_heap) : Z * bump_heap :=
  if next h + n <=? 65536
  then (next h, {| next := next h + n; released := released h |})
  else (0, h).

Definition bump_free (p : Z) (h : bump_heap) : bump_heap :=
  {| next := next h; released := p :: released h |}.

(** An allocator that has nothing left to give. *)
Definition no_malloc (n : Z) (h : bump_heap) : Z * bump_heap := (0, h).

(** * Properties *)

(** ** Machine integers and byte buffers *)

Lemma wrap32_range z : is_u32 (wrap32 z).
Proof. unfold is_u32, wrap32. apply Z.mod_pos_bound. lia. Qed.

Lemma wrap32_small z : is_u32 z -> wrap32 z = z.
Proof. unfold is_u32, wrap32. intros H. apply Z.mod_small. lia. Qed.

Lemma byte_at_range p i : 0 <= byte_at p i < 256.
Proof.
  unfold byte_at. destruct (p !! i) as [b|]; [|lia].
  pose proof (byte.unsigned_range b). lia.
Qed.

Lemma le32dec_range p off : is_u32 (le32dec p off).
Proof.
  unfold is_u32, le32dec.
  pose proof (byte_at_range p off).
  pose proof (byte_at_range p (off + 1)).
  pose proof (byte_at_range p (off + 2)).
  pose proof (byte_at_range p (off + 3)).
  rewrite !Z.shiftl_mul_pow2 by lia. lia.
Qed.

(** ** fulltest.c *)

Section FulltestFacts.

Lemma low_limbs_range k w :
  Forall is_u32 w -> 0 <= low_limbs k w < 2 ^ (32 * Z.of_nat k).
Proof.
  intros Hw. induction k as [|i IH].
  - simpl. lia.
  - cbn [low_limbs].
    assert (Hn : is_u32 (nth i w 0)).
    { destruct (nth_in_or_default i w 0) as [Hin | ->].
      - rewrite List.Forall_forall in Hw. apply Hw, Hin.
      - unfold is_u32. lia. }
    unfold is_u32 in Hn.
    replace (32 * Z.of_nat (S i)) with (32 * Z.of_nat i + 32) by lia.
    rewrite Z.pow_add_r by lia.
    nia.
Qed.

(** The loop over the [k] lowest limbs decides [<=] on their values. *)
Lemma fulltest_loop_low_limbs k hash target :
  Forall is_u32 hash -> Forall is_u32 target ->
  fulltest_loop k hash target = true <->
  low_limbs k hash <= low_limbs k target.
Proof.
  intros Hh Ht. induction k as [|i IH].
  - simpl. split; [lia | reflexivity].
  - cbn [fulltest_loop low_limbs].
    pose proof (low_limbs_range i _ Hh) as Rh.
    pose proof (low_limbs_range i _ Ht) as Rt.
    set (P := 2 ^ (32 * Z.of_nat i)) in *.
    destruct (Z.gtb_spec (nth i hash 0) (nth i target 0)) as [Hgt | Hle].
    + split; [discriminate | nia].
    + destruct (Z.ltb_spec (nth i hash 0) (nth i target 0)) as [Hlt | Hge].
      * split; [nia | reflexivity].
      * assert (nth i hash 0 = nth i target 0) as -> by lia.
        rewrite IH. lia.
Qed.

Lemma low_limbs_cons k x w :
  low_limbs (S k) (x :: w) = x + 2 ^ 32 * low_limbs k w.
Proof.
  induction k as [|i IH].
  - simpl. lia.
  - cbn [low_limbs] in *. rewrite IH.
    replace (32 * Z.of_nat (S i)) with (32 + 32 * Z.of_nat i) by lia.
    rewrite Z.pow_add_r by lia. cbn [nth]. lia.
Qed.

Lemma big_int_low_limbs w : big_int w = low_limbs (length w) w.
Proof.
  induction w as [|x w IH].
  - reflexivity.
  - cbn [length]. rewrite low_limbs_cons, <- IH. reflexivity.
Qed.

(** C1. For 8-word arrays [d] and [t] of 32-bit words, [fulltest d t] is
    true exactly when the 256-bit integer with limbs [d] (index 7 most
    significant) is at most the one with limbs [t]; in particular
    [fulltest t t] is true. *)
Theorem fulltest_is_le (d t : list Z) :
  length d = 8%nat -> length t = 8%nat ->
  Forall is_u32 d -> Forall is_u32 t ->
  (fulltest d t = true <-> big_int d <= big_int t) /\ fulltest t t = true.
Proof.
  intros Ld Lt Hd Ht. unfold fulltest.
  rewrite !big_int_low_limbs, Ld, Lt. split.
  - apply fulltest_loop_low_limbs; assumption.
  - apply fulltest_loop_low_limbs; [assumption .. | lia].
Qed.

End FulltestFacts.

(** ** Encoders and decoders *)

Section Endian.

Lemma set_byte_length p i v : length (set_byte p i v) = length p.
Proof. apply length_insert. Qed.

Lemma set_byte_lookup_ne p i j v : i <> j -> set_byte p i v !! j = p !! j.
Proof. intros. unfold set_byte. by apply list_lookup_insert_ne. Qed.

Lemma byte_at_set_byte_ne p i j v :
  i <> j -> byte_at (set_byte p i v) j = byte_at p j.
Proof. intros. unfold byte_at. by rewrite set_byte_lookup_ne. Qed.

Lemma byte_at_set_byte_eq p i v :
  (i < length p)%nat -> byte_at (set_byte p i v) i = v mod 256.
Proof.
  intros. unfold byte_at, set_byte.
  rewrite list_lookup_insert_eq by done.
  apply byte.unsigned_of_Z.
Qed.

(** Writing back the byte that is already there changes nothing, in range
    or out of it. *)
Lemma set_byte_id p i : set_byte p i (byte_at p i) = p.
Proof.
  unfold set_byte, byte_at. destruct (p !! i) as [b|] eqn:E.
  - rewrite byte.of_Z_unsigned. by apply list_insert_id.
  - apply list_insert_ge. by apply lookup_ge_None.
Qed.

Lemma le_bytes_split b0 b1 b2 b3 :
  0 <= b0 < 256 -> 0 <= b1 < 256 -> 0 <= b2 < 256 -> 0 <= b3 < 256 ->
  let x := b0 + Z.shiftl b1 8 + Z.shiftl b2 16 + Z.shiftl b3 24 in
  Z.land x 255 = b0 /\
  Z.land (Z.shiftr x 8) 255 = b1 /\
  Z.land (Z.shiftr x 16) 255 = b2 /\
  Z.land (Z.shiftr x 24) 255 = b3.
Proof.
  intros H0 H1 H2 H3 x. subst x.
  change 255 with (Z.ones 8).
  rewrite !Z.land_ones, !Z.shiftr_div_pow2, !Z.shiftl_mul_pow2 by lia.
  change (2 ^ 8) with 256. change (2 ^ 16) with 65536.
  change (2 ^ 24) with 16777216.
  repeat split; Z.div_mod_to_equations; lia.
Qed.

Lemma le_bytes_join v :
  is_u32 v ->
  Z.land v 255 mod 256
  + Z.shiftl (Z.land (Z.shiftr v 8) 255 mod 256) 8
  + Z.shiftl (Z.land (Z.shiftr v 16) 255 mod 256) 16
  + Z.shiftl (Z.land (Z.shiftr v 24) 255 mod 256) 24 = v.
Proof.
  unfold is_u32. intros Hv.
  change 255 with (Z.ones 8).
  rewrite !Z.land_ones, !Z.shiftr_div_pow2, !Z.shiftl_mul_pow2 by lia.
  change (2 ^ 8) with 256. change (2 ^ 16) with 65536.
  change (2 ^ 24) with 16777216. change (2 ^ 32) with 4294967296 in Hv.
  Z.div_mod_to_equations. lia.
Qed.

(** Storing the word just decoded from a place leaves the buffer as it
    was: on this host the byte-order normalisation is the identity. *)
Lemma le32enc_le32dec p off : le32enc p off (le32dec p off) = p.
Proof.
  unfold le32enc, le32dec.
  destruct (le_bytes_split _ _ _ _ (byte_at_range p off)
              (byte_at_range p (off + 1)) (byte_at_range p (off + 2))
              (byte_at_range p (off + 3))) as (-> & -> & -> & ->).
  by rewrite !set_byte_id.
Qed.

Lemma le32enc_length p off v : length (le32enc p off v) = length p.
Proof. unfold le32enc. by rewrite !set_byte_length. Qed.

Lemma be32enc_length p off v : length (be32enc p off v) = length p.
Proof. unfold be32enc. by rewrite !set_byte_length. Qed.

(** [le32enc] touches the four bytes at [off] only. *)
Lemma le32enc_lookup_other p off v j :
  (j < off \/ off + 3 < j)%nat -> le32enc p off v !! j = p !! j.
Proof.
  intros Hj. unfold le32enc.
  rewrite !set_byte_lookup_ne by lia. reflexivity.
Qed.

Lemma le32enc_bytes p off v :
  (off + 3 < length p)%nat ->
  byte_at (le32enc p off v) off = Z.land v 255 /\
  byte_at (le32enc p off v) (off + 1) = Z.land (Z.shiftr v 8) 255 /\
  byte_at (le32enc p off v) (off + 2) = Z.land (Z.shiftr v 16) 255 /\
  byte_at (le32enc p off v) (off + 3) = Z.land (Z.shiftr v 24) 255.
Proof.
  intros Hl. unfold le32enc.
  assert (Hm : forall x, Z.land x 255 mod 256 = Z.land x 255).
  { intros x. change 255 with (Z.ones 8). rewrite Z.land_ones by lia.
    apply Z.mod_mod. lia. }
  repeat split;
    repeat first
      [ rewrite byte_at_set_byte_ne by lia
      | rewrite byte_at_set_byte_eq by (rewrite ?set_byte_length; lia) ];
    apply Hm.
Qed.

Lemma be32enc_bytes p off v :
  (off + 3 < length p)%nat ->
  byte_at (be32enc p off v) off = Z.land (Z.shiftr v 24) 255 /\
  byte_at (be32enc p off v) (off + 1) = Z.land (Z.shiftr v 16) 255 /\
  byte_at (be32enc p off v) (off + 2) = Z.land (Z.shiftr v 8) 255 /\
  byte_at (be32enc p off v) (off + 3) = Z.land v 255.
Proof.
  intros Hl. unfold be32enc.
  assert (Hm : forall x, Z.land x 255 mod 256 = Z.land x 255).
  { intros x. change 255 with (Z.ones 8). rewrite Z.land_ones by lia.
    apply Z.mod_mod. lia. }
  repeat split;
    repeat first
      [ rewrite byte_at_set_byte_ne by lia
      | rewrite byte_at_set_byte_eq by (rewrite ?set_byte_length; lia) ];
    apply Hm.
Qed.

Lemma le32dec_le32enc p off v :
  is_u32 v -> (off + 3 < length p)%nat -> le32dec (le32enc p off v) off = v.
Proof.
  intros Hv Hl.
  destruct (le32enc_bytes p off v Hl) as (E0 & E1 & E2 & E3).
  unfold le32dec. rewrite E0, E1, E2, E3.
  assert (Hm : forall x, Z.land x 255 = Z.land x 255 mod 256).
  { intros x. change 255 with (Z.ones 8). rewrite Z.land_ones by lia.
    symmetry. apply Z.mod_mod. lia. }
  rewrite (Hm v), (Hm (Z.shiftr v 8)), (Hm (Z.shiftr v 16)),
    (Hm (Z.shiftr v 24)).
  by apply le_bytes_join.
Qed.

(** A later [be32enc] at the same place overwrites an earlier one. *)
Lemma be32enc_be32enc p off a b :
  be32enc (be32enc p off a) off b = be32enc p off b.
Proof.
  apply list_eq. intros j. unfold be32enc, set_byte.
  rewrite !list_lookup_insert, !length_insert.
  repeat case_decide; try reflexivity; lia.
Qed.

End Endian.

(** ** wasm-wrapper.c: the pre-filter *)

Section Prefilter.

Lemma normalize_hash_id hash : normalize_hash hash = hash.
Proof.
  unfold normalize_hash. cbn [fold_left seq]. unfold store_u32.
  by rewrite !le32enc_le32dec.
Qed.

Lemma as_u32_top p : nth 7 (as_u32 p 8) 0 = load_u32 p 7.
Proof. reflexivity. Qed.

(** C2. When the little-endian top word of the digest exceeds the top word
    of the target, [fulltest] on the normalised digest is false; so the
    decision of the loop body, pre-filter included, is the decision of
    [fulltest]. *)
Theorem prefilter_sound (target hash : list byte) :
  (le32dec hash (4 * 7) > load_u32 target 7 ->
   fulltest (as_u32 (normalize_hash hash) 8) (as_u32 target 8) = false)
  /\ accepts (load_u32 target 7) target hash
     = fulltest (as_u32 (normalize_hash hash) 8) (as_u32 target 8).
Proof.
  assert (Hskip : le32dec hash (4 * 7) > load_u32 target 7 ->
    fulltest (as_u32 (normalize_hash hash) 8) (as_u32 target 8) = false).
  { intros Hgt. unfold fulltest. cbn [fulltest_loop].
    rewrite !as_u32_top, normalize_hash_id.
    change (load_u32 hash 7) with (le32dec hash (4 * 7)).
    destruct (Z.gtb_spec (le32dec hash (4 * 7)) (load_u32 target 7));
      [reflexivity | lia]. }
  split; [exact Hskip|].
  unfold accepts.
  destruct (Z.leb_spec (le32dec hash (4 * 7)) (load_u32 target 7));
    [reflexivity|].
  symmetry. apply Hskip. lia.
Qed.

End Prefilter.

(** ** wasm-wrapper.c: the scan loop *)

Section ScanFacts.

Variable yespower_tls : list byte -> option (list byte).

Local Abbreviation scan := (scan_tidecoin_hash yespower_tls).
Local Abbreviation try := (try_nonce yespower_tls).
Local Abbreviation find := (search yespower_tls).

Lemma prepare_data_length block_data :
  (80 <= length block_data)%nat -> length (prepare_data block_data) = 80%nat.
Proof.
  intros Hl. unfold prepare_data. cbn [fold_left seq]. unfold store_u32.
  rewrite !le32enc_length. unfold memcpy.
  rewrite length_app, length_take, length_drop, length_replicate. lia.
Qed.

Lemma header_for_overwrite block_data a x :
  be32enc (header_for block_data a) (4 * 19) x = header_for block_data x.
Proof. unfold header_for. apply be32enc_be32enc. Qed.

(** *** The linear search *)

(** The search stops at the nonce it has just tried. *)
Local Ltac stop_here E :=
  split; [lia|]; split; [intros; lia|];
  first
    [ left; split; [reflexivity | exact E]
    | right; left; split; [reflexivity | exact E]
    | right; right; split; [reflexivity | split; [exact E | lia]] ].

Lemma search_stop st k m :
  let '(rc, nf) := find st k m in
  m <= nf <= m + Z.of_nat k /\
  (forall j, m <= j < nf -> try st j = Some false) /\
  (rc = -1 /\ try st nf = None
   \/ rc = 1 /\ try st nf = Some true
   \/ rc = 0 /\ try st nf = Some false /\ nf = m + Z.of_nat k).
Proof.
  revert m. induction k as [|k IH]; intros m; cbn [search].
  - destruct (try st m) as [[|]|] eqn:E; cbv beta iota; stop_here E.
  - destruct (try st m) as [[|]|] eqn:E; cbv beta iota; try stop_here E.
    specialize (IH (m + 1)). destruct (find st k (m + 1)) as [rc nf].
    destruct IH as (Hb & Hrej & Hrc).
    split; [lia|]. split.
    + intros j Hj. destruct (Z.eq_dec j m) as [->|]; [exact E|].
      apply Hrej. lia.
    + destruct Hrc as [?|[?|(? & ? & ?)]]; [tauto | tauto |].
      right. right. repeat split; [assumption .. | lia].
Qed.

(** Searching [k1 + 1 + k2 + 1] nonces is searching the first [k1 + 1]
    and, if none of them stops the search, the rest. *)
Lemma search_split st k1 k2 m :
  find st (k1 + S k2) m =
  (if fst (find st k1 m) =? 0
   then find st k2 (m + Z.of_nat k1 + 1)
   else find st k1 m).
Proof.
  revert m. induction k1 as [|k1 IH]; intros m.
  - cbn [search Nat.add]. destruct (try st m) as [[|]|]; cbn [fst];
      try reflexivity.
    replace (m + Z.of_nat 0 + 1) with (m + 1) by lia. reflexivity.
  - cbn [search Nat.add]. destruct (try st m) as [[|]|]; cbn [fst];
      try reflexivity.
    rewrite IH. replace (m + 1 + Z.of_nat k1 + 1)
      with (m + Z.of_nat (S k1) + 1) by lia.
    reflexivity.
Qed.

(** *** The loop computes the search *)

Lemma scan_loop_search st start_nonce max_nonce :
  max_nonce < 2 ^ 32 ->
  forall k fuel data n m log,
    (k < fuel)%nat ->
    k = Z.to_nat (max_nonce - m) ->
    0 <= m -> wrap32 (n + 1) = m ->
    (forall x, be32enc data (4 * 19) x = header_for (block_data_ptr st) x) ->
    scan_loop yespower_tls fuel st start_nonce max_nonce
      (load_u32 (target_ptr st) 7) data n log
    = Some (result_of_search st start_nonce log m (find st k m)).
Proof.
  intros Hmax. induction k as [|k IH];
    intros fuel data n m log Hfuel Hk Hm Hn Hdata;
    (destruct fuel as [|fuel]; [lia|]);
    cbn [scan_loop search]; rewrite Hn, Hdata; unfold try_nonce;
    destruct (yespower_tls (header_for (block_data_ptr st) m)) as [hash|];
    try destruct (accepts _ _ hash);
    try (unfold result_of_search; cbn [Z.eqb Pos.eqb];
         replace (m - m + 1) with 1 by lia; reflexivity).
  - destruct (Z.ltb_spec m max_nonce); [lia|].
    unfold result_of_search; cbn [Z.eqb Pos.eqb].
    replace (m - m + 1) with 1 by lia. reflexivity.
  - destruct (Z.ltb_spec m max_nonce); [|lia].
    rewrite (IH fuel _ m (m + 1)); try lia.
    + pose proof (search_stop st k (m + 1)) as Hs.
      destruct (find st k (m + 1)) as [rc nf]. destruct Hs as (Hb & _).
      unfold result_of_search. do 2 f_equal.
      rewrite (seqZ_cons m) by lia. cbn [map].
      rewrite <- app_assoc. cbn [app].
      replace (Z.succ m) with (m + 1) by lia.
      replace (Z.pred (nf - m + 1)) with (nf - (m + 1) + 1) by lia.
      reflexivity.
    + apply wrap32_small. unfold is_u32. lia.
    + intros x. apply header_for_overwrite.
Qed.

Lemma wrap32_pre_increment start_nonce :
  is_u32 start_nonce -> wrap32 (wrap32 (start_nonce - 1) + 1) = start_nonce.
Proof.
  intros H. unfold wrap32. rewrite Zplus_mod_idemp_l.
  replace (start_nonce - 1 + 1) with start_nonce by lia.
  by apply wrap32_small.
Qed.

(** Every call returns, and what it returns is read off the search over
    [start_nonce .. max_nonce]. *)
Lemma scan_as_search st start_nonce max_nonce :
  is_u32 start_nonce -> is_u32 max_nonce ->
  scan st start_nonce max_nonce
  = Some (result_of_search st start_nonce [] start_nonce
            (find st (Z.to_nat (max_nonce - start_nonce)) start_nonce)).
Proof.
  intros Hs Hm. unfold scan_tidecoin_hash.
  apply scan_loop_search.
  - apply Hm.
  - lia.
  - reflexivity.
  - apply Hs.
  - by apply wrap32_pre_increment.
  - intros x. reflexivity.
Qed.

Lemma search_all_rejected st k m :
  (forall j, try st j = Some false) -> find st k m = (0, m + Z.of_nat k).
Proof.
  intros Hrej. revert m. induction k as [|k IH]; intros m; cbn [search];
    rewrite Hrej.
  - f_equal. lia.
  - rewrite IH. f_equal. lia.
Qed.

(** The search reads the header and the target, not the counter. *)
Lemma search_same_buffers st st' k m :
  block_data_ptr st = block_data_ptr st' -> target_ptr st = target_ptr st' ->
  find st k m = find st' k m.
Proof.
  intros Hh Ht. revert m. induction k as [|k IH]; intros m; cbn [search];
    unfold try_nonce; rewrite Hh, Ht; [reflexivity|].
  by rewrite IH.
Qed.

Lemma hashed_last (f : Z -> list byte) m nf :
  m <= nf -> last (map f (seqZ m (nf - m + 1))) = Some (f nf).
Proof.
  intros H. replace (nf - m + 1) with ((nf - m) + 1) by lia.
  rewrite seqZ_app by lia. rewrite map_app.
  change (seqZ (m + (nf - m)) 1) with [m + (nf - m)]. cbn [map].
  rewrite last_snoc. do 2 f_equal. lia.
Qed.

Lemma search_stop_u32 st start_nonce max_nonce :
  is_u32 start_nonce -> is_u32 max_nonce ->
  is_u32 (snd (find st (Z.to_nat (max_nonce - start_nonce)) start_nonce)).
Proof.
  unfold is_u32. intros Hs Hm.
  pose proof (search_stop st (Z.to_nat (max_nonce - start_nonce)) start_nonce)
    as H.
  destruct (find _ _ _) as [rc nf]. cbn [snd]. lia.
Qed.

(** The search stops with -1 at the first nonce on which the oracle
    fails, when every nonce before it was rejected. *)
Lemma search_first_failure st k m nk :
  m <= nk <= m + Z.of_nat k ->
  (forall j, m <= j < nk -> try st j = Some false) ->
  try st nk = None ->
  find st k m = (-1, nk).
Proof.
  revert m. induction k as [|k IH]; intros m Hb Hrej Hfail; cbn [search].
  - assert (nk = m) as -> by lia. by rewrite Hfail.
  - destruct (Z.eq_dec nk m) as [->|Hne]; [by rewrite Hfail|].
    rewrite Hrej by lia. apply IH; [lia | | assumption].
    intros j Hj. apply Hrej. lia.
Qed.

(** On an oracle failure at nonce [nk] the scan returns -1 at once: the
    failed call is the last one, and memory, [hashes_done] included, is
    what it was before the call. *)
Lemma scan_aborts_on_failure st start_nonce max_nonce nk :
  is_u32 start_nonce -> is_u32 max_nonce ->
  start_nonce <= nk <= max_nonce ->
  (forall j, start_nonce <= j < nk -> try st j = Some false) ->
  try st nk = None ->
  exists r, scan st start_nonce max_nonce = Some r /\
    ret r = -1 /\ last_n r = nk /\ mem r = st /\
    hashed r = map (header_for (block_data_ptr st))
                 (seqZ start_nonce (nk - start_nonce + 1)).
Proof.
  intros Hs Hm Hb Hrej Hfail. rewrite scan_as_search by assumption.
  rewrite (search_first_failure st _ _ nk) by (assumption || lia).
  eexists. split; [reflexivity|]. repeat split.
Qed.

(** A scan in which every nonce is rejected. *)
Lemma scan_all_rejected st max_nonce :
  is_u32 max_nonce -> (forall j, try st j = Some false) ->
  exists r, scan st 0 max_nonce = Some r /\ ret r = 0 /\
    last_n r = max_nonce /\ hashes_done (mem r) = wrap32 (max_nonce + 1).
Proof.
  intros Hm Hrej. rewrite scan_as_search by (unfold is_u32 in *; lia).
  rewrite search_all_rejected by assumption.
  eexists. split; [reflexivity|]. unfold is_u32 in Hm.
  cbn [result_of_search ret last_n mem hashes_done Z.eqb].
  repeat split; [lia|]. f_equal. lia.
Qed.

End ScanFacts.

(** ** wasm-wrapper.c: what a scan returns and leaves behind *)

Section ScanOutcome.

Variable yespower_tls : list byte -> option (list byte).

Local Abbreviation scan := (scan_tidecoin_hash yespower_tls).

(** Replace the call by its characterisation and name the stop of the
    search. *)
Local Ltac by_search st start_nonce max_nonce rc nf Hstop :=
  rewrite (scan_as_search yespower_tls st start_nonce max_nonce)
    by assumption;
  pose proof (search_stop yespower_tls st
                (Z.to_nat (max_nonce - start_nonce)) start_nonce) as Hstop;
  destruct (search yespower_tls st
              (Z.to_nat (max_nonce - start_nonce)) start_nonce) as [rc nf].

(** C3 (amended). When the scan returns 1 with winning nonce [n], bytes
    76..79 of the caller's header hold [n] least significant byte first
    (little-endian, so [le32dec] reads [n] back), whereas the last buffer
    that was hashed holds [n] most significant byte first at the same
    place. *)
Theorem found_nonce_little_endian st start_nonce max_nonce :
  is_u32 start_nonce -> is_u32 max_nonce ->
  length (block_data_ptr st) = 80%nat ->
  exists r, scan st start_nonce max_nonce = Some r /\
    (ret r = 1 ->
     let n := last_n r in
     let header := block_data_ptr (mem r) in
     let sent := header_for (block_data_ptr st) n in
     is_u32 n /\ le32dec header 76 = n /\
     byte_at header 76 = Z.land n 255 /\
     byte_at header 77 = Z.land (Z.shiftr n 8) 255 /\
     byte_at header 78 = Z.land (Z.shiftr n 16) 255 /\
     byte_at header 79 = Z.land (Z.shiftr n 24) 255 /\
     last (hashed r) = Some sent /\
     byte_at sent 76 = Z.land (Z.shiftr n 24) 255 /\
     byte_at sent 77 = Z.land (Z.shiftr n 16) 255 /\
     byte_at sent 78 = Z.land (Z.shiftr n 8) 255 /\
     byte_at sent 79 = Z.land n 255).
Proof.
  intros Hs Hm Hlen.
  pose proof (search_stop_u32 yespower_tls st _ _ Hs Hm) as Hu.
  by_search st start_nonce max_nonce rc nf Hstop.
  cbn [snd] in Hu. destruct Hstop as (Hb & _).
  eexists. split; [reflexivity|].
  cbn [result_of_search ret last_n mem hashed]. intros ->.
  cbn [Z.eqb Pos.eqb block_data_ptr]. cbv zeta.
  assert (Hl : (76 + 3 < length (block_data_ptr st))%nat) by lia.
  destruct (le32enc_bytes (block_data_ptr st) 76 nf Hl) as (E0 & E1 & E2 & E3).
  assert (Hl' : (76 + 3 < length (prepare_data (block_data_ptr st)))%nat).
  { rewrite prepare_data_length; lia. }
  destruct (be32enc_bytes (prepare_data (block_data_ptr st)) 76 nf Hl')
    as (B0 & B1 & B2 & B3).
  split; [exact Hu|].
  split; [apply (le32dec_le32enc _ 76); assumption|].
  repeat (split; [first [exact E0 | exact E1 | exact E2 | exact E3]|]).
  split; [apply hashed_last; lia|].
  unfold header_for.
  repeat split; first [exact B0 | exact B1 | exact B2 | exact B3].
Qed.

(** C5 (amended). With an oracle that never fails and
    [start_nonce <= max_nonce], the scan returns 0 or 1 and leaves in
    [hashes_done], whatever was there before, the number of nonces hashed
    reduced modulo [2^32]: [max_nonce - start_nonce + 1] on 0 and
    [n - start_nonce + 1] on 1 at nonce [n], and exactly that number
    whenever it is below [2^32]. *)
Theorem hashes_done_accounting st start_nonce max_nonce :
  is_u32 start_nonce -> is_u32 max_nonce -> start_nonce <= max_nonce ->
  (forall data, yespower_tls data <> None) ->
  exists r, scan st start_nonce max_nonce = Some r /\
    (ret r = 0 \/ ret r = 1) /\
    start_nonce <= last_n r <= max_nonce /\
    (ret r = 0 ->
     get_hashes_done (mem r) = wrap32 (max_nonce - start_nonce + 1)) /\
    (ret r = 1 ->
     get_hashes_done (mem r) = wrap32 (last_n r - start_nonce + 1)) /\
    (ret r = 0 -> max_nonce - start_nonce + 1 < 2 ^ 32 ->
     get_hashes_done (mem r) = max_nonce - start_nonce + 1) /\
    (ret r = 1 -> last_n r - start_nonce + 1 < 2 ^ 32 ->
     get_hashes_done (mem r) = last_n r - start_nonce + 1).
Proof.
  intros Hs Hm Hle Hok.
  by_search st start_nonce max_nonce rc nf Hstop.
  destruct Hstop as (Hb & _ & Hrc).
  eexists. split; [reflexivity|].
  cbn [result_of_search ret last_n mem]. unfold get_hashes_done.
  assert (Hrc' : rc = 1 \/ rc = 0 /\ nf = max_nonce).
  { destruct Hrc as [[_ Hnone]|[[? _]|(? & _ & ?)]].
    - unfold try_nonce in Hnone.
      specialize (Hok (header_for (block_data_ptr st) nf)).
      destruct (yespower_tls (header_for (block_data_ptr st) nf));
        [discriminate | contradiction].
    - by left.
    - right. split; [assumption | lia]. }
  unfold is_u32 in *.
  split; [lia|]. split; [lia|].
  destruct Hrc' as [-> | [-> ->]]; cbn [Z.eqb Pos.eqb hashes_done];
    (split; [intros; first [reflexivity | lia]|]);
    (split; [intros; first [reflexivity | lia]|]);
    split; intros; try lia; apply wrap32_small; unfold is_u32; lia.
Qed.

(** C6. A scan writes to the caller's header only when it returns 1, and
    then only bytes 76..79; when it returns 0 or -1 the header is
    unchanged; the target buffer is unchanged on every path. *)
Theorem scan_frame st start_nonce max_nonce :
  is_u32 start_nonce -> is_u32 max_nonce ->
  exists r, scan st start_nonce max_nonce = Some r /\
    target_ptr (mem r) = target_ptr st /\
    (ret r <> 1 -> block_data_ptr (mem r) = block_data_ptr st) /\
    length (block_data_ptr (mem r)) = length (block_data_ptr st) /\
    (forall j, (j < 76)%nat ->
       block_data_ptr (mem r) !! j = block_data_ptr st !! j).
Proof.
  intros Hs Hm.
  by_search st start_nonce max_nonce rc nf Hstop. clear Hstop.
  eexists. split; [reflexivity|].
  cbn [result_of_search ret mem].
  destruct (Z.eqb_spec rc (-1)) as [->|Hne1].
  { repeat split; reflexivity. }
  cbn [target_ptr block_data_ptr].
  destruct (Z.eqb_spec rc 1) as [->|Hne2].
  - split; [reflexivity|]. split; [congruence|].
    split; [apply le32enc_length|].
    intros j Hj. apply le32enc_lookup_other. lia.
  - repeat split; reflexivity.
Qed.

(** C7. For [start_nonce <= max_nonce < max_nonce2], scanning
    [start_nonce .. max_nonce] and, when that returns 0, scanning on from
    [max_nonce + 1] to [max_nonce2] in the memory it left, ends as the one
    scan of [start_nonce .. max_nonce2] does: same return code, same
    winning nonce, same header, and the buffers hashed by the two parts,
    put end to end, are those the one scan hashes. *)
Theorem split_scan_equivalence st start_nonce max_nonce max_nonce2 :
  is_u32 start_nonce -> is_u32 max_nonce2 ->
  start_nonce <= max_nonce < max_nonce2 ->
  exists r1 r,
    scan st start_nonce max_nonce = Some r1 /\
    scan st start_nonce max_nonce2 = Some r /\
    ((ret r1 <> 0 /\ r = r1) \/
     (ret r1 = 0 /\
      exists r2,
        scan (mem r1) (max_nonce + 1) max_nonce2 = Some r2 /\
        ret r2 = ret r /\ last_n r2 = last_n r /\
        block_data_ptr (mem r2) = block_data_ptr (mem r) /\
        target_ptr (mem r2) = target_ptr (mem r) /\
        hashed r1 ++ hashed r2 = hashed r)).
Proof.
  intros Hs Hm2 Hle. unfold is_u32 in Hs, Hm2.
  assert (Hm : is_u32 max_nonce) by (unfold is_u32; lia).
  assert (Hm1 : is_u32 (max_nonce + 1)) by (unfold is_u32; lia).
  assert (Hs' : is_u32 start_nonce) by (unfold is_u32; lia).
  assert (Hm2' : is_u32 max_nonce2) by (unfold is_u32; lia).
  rewrite !scan_as_search by assumption.
  set (k1 := Z.to_nat (max_nonce - start_nonce)).
  set (k2 := Z.to_nat (max_nonce2 - (max_nonce + 1))).
  replace (Z.to_nat (max_nonce2 - start_nonce)) with (k1 + S k2)%nat
    by (subst k1 k2; lia).
  rewrite search_split.
  pose proof (search_stop yespower_tls st k1 start_nonce) as Hstop.
  destruct (search yespower_tls st k1 start_nonce) as [rc nf].
  destruct Hstop as (Hb & _ & Hrc). cbn [fst].
  do 2 eexists. split; [reflexivity|]. split; [reflexivity|].
  destruct (Z.eqb_spec rc 0) as [->|Hne].
  - right. split; [reflexivity|].
    assert (nf = max_nonce) as ->.
    { destruct Hrc as [[? _]|[[? _]|(_ & _ & ?)]]; [lia | lia |].
      subst k1. lia. }
    cbn [result_of_search Z.eqb mem].
    rewrite scan_as_search by assumption. fold k2.
    rewrite (search_same_buffers yespower_tls _ st) by reflexivity.
    replace (start_nonce + Z.of_nat k1 + 1) with (max_nonce + 1)
      by (subst k1; lia).
    pose proof (search_stop yespower_tls st k2 (max_nonce + 1)) as Hstop2.
    destruct (search yespower_tls st k2 (max_nonce + 1)) as [rc2 nf2].
    destruct Hstop2 as (Hb2 & _).
    eexists. split; [reflexivity|].
    cbn [result_of_search ret last_n mem hashed block_data_ptr target_ptr].
    repeat split; try reflexivity.
    + destruct (rc2 =? -1); reflexivity.
    + destruct (rc2 =? -1); reflexivity.
    + cbn [app]. rewrite <- map_app. f_equal.
      replace (nf2 - start_nonce + 1)
        with ((max_nonce - start_nonce + 1) + (nf2 - (max_nonce + 1) + 1))
        by lia.
      rewrite (seqZ_app start_nonce (max_nonce - start_nonce + 1)
                 (nf2 - (max_nonce + 1) + 1)) by lia.
      replace (start_nonce + (max_nonce - start_nonce + 1))
        with (max_nonce + 1) by lia.
      reflexivity.
  - left. split; [exact Hne | reflexivity].
Qed.

(** C10. For every [start_nonce <= max_nonce], zero included, the wrapped
    initialisation followed by the pre-increment makes [start_nonce] the
    first nonce hashed, and the buffers hashed are those of the nonces
    [start_nonce, start_nonce + 1, ..., n] for the last value [n] of the
    counter, with [start_nonce <= n <= max_nonce]: an initial segment of
    the range, and nothing outside it. *)
Theorem nonces_hashed_initial_segment st start_nonce max_nonce :
  is_u32 start_nonce -> is_u32 max_nonce -> start_nonce <= max_nonce ->
  wrap32 (wrap32 (start_nonce - 1) + 1) = start_nonce /\
  exists r, scan st start_nonce max_nonce = Some r /\
    start_nonce <= last_n r <= max_nonce /\
    head (hashed r) = Some (header_for (block_data_ptr st) start_nonce) /\
    hashed r = map (header_for (block_data_ptr st))
                 (seqZ start_nonce (last_n r - start_nonce + 1)).
Proof.
  intros Hs Hm Hle. split; [by apply wrap32_pre_increment|].
  by_search st start_nonce max_nonce rc nf Hstop.
  destruct Hstop as (Hb & _).
  eexists. split; [reflexivity|].
  cbn [result_of_search last_n hashed app].
  split; [lia|]. split; [|reflexivity].
  rewrite seqZ_cons by lia. reflexivity.
Qed.

End ScanOutcome.

(** ** yespower-platform.c *)

Section AllocRegionFacts.

Context {heap : Type}.
Variable malloc : Z -> heap -> Z * heap.

Lemma align_down_64 a :
  0 <= a ->
  let a' := a - Z.land a 63 in
  a' mod 64 = 0 /\ a - 63 <= a' <= a.
Proof.
  intros Ha. cbv zeta.
  assert (E : Z.land a 63 = a mod 64).
  { change 63 with (Z.ones 6). by rewrite Z.land_ones by lia. }
  rewrite E. Z.div_mod_to_equations. lia.
Qed.

(** C8. A request of [size] bytes asks the allocator for [size + 63]
    (as a [size_t]).  When the allocator returns [NULL], both pointers of
    the region are [NULL] and both sizes are 0.  When it grants a block
    of [size + 63] bytes (the sum fits a [size_t], and the block lies in
    the address space with its end), the usable pointer is a multiple of
    64, the [size] usable bytes from it lie inside the block, and the
    sizes recorded are [size + 63] and [size].  The function returns the
    usable pointer. *)
Theorem alloc_region_post region size h :
  let base0 := fst (malloc (wrap32 (size + 63)) h) in
  let '(p, region', h') := alloc_region malloc region size h in
  p = aligned region' /\ h' = snd (malloc (wrap32 (size + 63)) h) /\
  (base0 <> 0 ->
   0 <= size -> size + 63 < 2 ^ 32 ->
   0 < base0 -> base0 + (size + 63) < 2 ^ 32 ->
   base region' = base0 /\
   aligned region' mod 64 = 0 /\
   base0 <= aligned region' /\
   aligned region' + size <= base0 + (size + 63) /\
   base_size region' = size + 63 /\
   aligned_size region' = size) /\
  (base0 = 0 ->
   base region' = 0 /\ aligned region' = 0 /\
   base_size region' = 0 /\ aligned_size region' = 0).
Proof.
  intros base0. subst base0. unfold alloc_region.
  destruct (malloc (wrap32 (size + 63)) h) as [b h1].
  cbn [fst snd]. cbv beta iota zeta.
  destruct (Z.eqb_spec b 0) as [->|Hb]; cbn [negb].
  - cbn [aligned base base_size aligned_size].
    repeat split; intros; try reflexivity; lia.
  - assert (Hz : (b =? 0) = false) by (by apply Z.eqb_neq).
    cbn [aligned base base_size aligned_size]. rewrite !Hz. cbn [negb].
    split; [reflexivity|]. split; [reflexivity|]. split; [|intros; lia].
    intros _ Hsize Hfit Hpos Hend.
    assert (Hw : wrap32 (size + 63) = size + 63).
    { apply wrap32_small. unfold is_u32. lia. }
    assert (Hb63 : wrap32 (b + 63) = b + 63).
    { apply wrap32_small. unfold is_u32. lia. }
    rewrite Hw, Hb63.
    destruct (align_down_64 (b + 63)) as [Hmod Hrange]; [lia|].
    assert (Ha : wrap32 (b + 63 - Z.land (b + 63) 63)
                 = b + 63 - Z.land (b + 63) 63).
    { apply wrap32_small. unfold is_u32. lia. }
    rewrite Ha. repeat split; try assumption; lia.
Qed.

End AllocRegionFacts.

Section FreeRegionFacts.

Context {heap : Type}.
Variable free : Z -> heap -> heap.

(** C9. [free_region] returns 0 and leaves the region empty (both pointers
    [NULL], both sizes 0) whatever it was; it passes the base pointer to
    [free] when there is one and calls nothing otherwise; applied again to
    the region it left, it changes neither the region nor the allocator. *)
Theorem free_region_resets region h :
  exists region' h',
    free_region free region h = (0, region', h') /\
    base region' = 0 /\ aligned region' = 0 /\
    base_size region' = 0 /\ aligned_size region' = 0 /\
    h' = (if base region =? 0 then h else free (base region) h) /\
    free_region free region' h' = (0, region', h').
Proof.
  do 2 eexists. split; [reflexivity|].
  cbn [init_region base aligned base_size aligned_size].
  repeat split. destruct (base region =? 0); reflexivity.
Qed.

End FreeRegionFacts.

(** ** Worked instances *)

Section Instances.

Local Ltac u32 := unfold is_u32; lia.

Lemma fulltest_is_le_witness :
  let d := [5; 0; 0; 0; 0; 0; 0; 1] in
  let t := [4; 0; 0; 0; 0; 0; 0; 2] in
  (fulltest d t = true <-> big_int d <= big_int t) /\ fulltest t t = true.
Proof.
  cbv zeta. apply fulltest_is_le; try reflexivity;
    repeat (apply List.Forall_cons; [u32|]); apply List.Forall_nil.
Defined.

Lemma prefilter_sound_witness :
  fulltest (as_u32 (normalize_hash (replicate 32 Byte.xff)) 8)
    (as_u32 (target_ptr demo_state) 8) = false.
Proof.
  apply (proj1 (prefilter_sound (target_ptr demo_state)
                  (replicate 32 Byte.xff))).
  reflexivity.
Defined.

(** C3, as stated, fails: the scan of nonce 1 alone with an oracle that
    always satisfies the target returns 1 with winning nonce 1 and leaves
    01 00 00 00 in bytes 76..79, which is not the big-endian encoding
    00 00 00 01 that was hashed. *)
Lemma found_nonce_not_big_endian :
  exists r, scan_tidecoin_hash zero_oracle demo_state 1 1 = Some r /\
    ret r = 1 /\ last_n r = 1 /\
    map byte.unsigned (drop 76 (block_data_ptr (mem r))) = [1; 0; 0; 0] /\
    map byte.unsigned (drop 76 (be32enc (block_data_ptr demo_state) 76
                                  (last_n r))) = [0; 0; 0; 1] /\
    drop 76 (block_data_ptr (mem r))
    <> drop 76 (be32enc (block_data_ptr demo_state) 76 (last_n r)).
Proof.
  eexists. split; [vm_compute; reflexivity|].
  repeat split; try (vm_compute; reflexivity).
  vm_compute. discriminate.
Qed.

Lemma found_nonce_little_endian_witness :
  exists r, scan_tidecoin_hash demo_oracle demo_state 0 9 = Some r /\
    (ret r = 1 ->
     let n := last_n r in
     let header := block_data_ptr (mem r) in
     let sent := header_for (block_data_ptr demo_state) n in
     is_u32 n /\ le32dec header 76 = n /\
     byte_at header 76 = Z.land n 255 /\
     byte_at header 77 = Z.land (Z.shiftr n 8) 255 /\
     byte_at header 78 = Z.land (Z.shiftr n 16) 255 /\
     byte_at header 79 = Z.land (Z.shiftr n 24) 255 /\
     last (hashed r) = Some sent /\
     byte_at sent 76 = Z.land (Z.shiftr n 24) 255 /\
     byte_at sent 77 = Z.land (Z.shiftr n 16) 255 /\
     byte_at sent 78 = Z.land (Z.shiftr n 8) 255 /\
     byte_at sent 79 = Z.land n 255).
Proof.
  apply (found_nonce_little_endian demo_oracle demo_state 0 9);
    [u32 | u32 | reflexivity].
Defined.

(** C4 at a concrete input.  A scan of 0..6 is exhausted and leaves
    [hashes_done = 7]; the next scan, of 10..20, completes the hashes of
    nonces 10 and 11, fails in the oracle at nonce 12 and returns -1 after
    that third call, and [hashes_done] is still the 7 of the earlier
    scan. *)
Theorem oracle_failure_leaves_counter_stale :
  exists r1 r2,
    scan_tidecoin_hash demo_oracle demo_state 0 6 = Some r1 /\
    ret r1 = 0 /\ get_hashes_done (mem r1) = 7 /\
    scan_tidecoin_hash demo_oracle (mem r1) 10 20 = Some r2 /\
    ret r2 = -1 /\ last_n r2 = 12 /\ length (hashed r2) = 3%nat /\
    get_hashes_done (mem r2) = 7.
Proof.
  do 2 eexists. split; [vm_compute; reflexivity|].
  split; [reflexivity|]. split; [reflexivity|].
  split; [vm_compute; reflexivity|].
  repeat split.
Qed.

(** C5, as stated, fails on the whole 32-bit range: when none of the
    [2^32] nonces is accepted the scan returns 0 with [hashes_done = 0],
    not [max_nonce - start_nonce + 1 = 2^32]. *)
Lemma hashes_done_wraps_on_full_range :
  exists r, scan_tidecoin_hash ones_oracle demo_state 0 4294967295 = Some r /\
    ret r = 0 /\ get_hashes_done (mem r) = 0 /\
    get_hashes_done (mem r) <> 4294967295 - 0 + 1.
Proof.
  destruct (scan_all_rejected ones_oracle demo_state 4294967295)
    as (r & Hr & Hret & _ & Hd).
  - u32.
  - intros j. unfold try_nonce, ones_oracle. vm_compute. reflexivity.
  - exists r. unfold get_hashes_done. rewrite Hd.
    split; [exact Hr|]. split; [exact Hret|].
    split; [reflexivity | vm_compute; discriminate].
Qed.

Lemma hashes_done_accounting_witness :
  exists r, scan_tidecoin_hash ones_oracle demo_state 0 3 = Some r /\
    (ret r = 0 \/ ret r = 1) /\
    0 <= last_n r <= 3 /\
    (ret r = 0 -> get_hashes_done (mem r) = wrap32 (3 - 0 + 1)) /\
    (ret r = 1 -> get_hashes_done (mem r) = wrap32 (last_n r - 0 + 1)) /\
    (ret r = 0 -> 3 - 0 + 1 < 2 ^ 32 ->
     get_hashes_done (mem r) = 3 - 0 + 1) /\
    (ret r = 1 -> last_n r - 0 + 1 < 2 ^ 32 ->
     get_hashes_done (mem r) = last_n r - 0 + 1).
Proof.
  apply (hashes_done_accounting ones_oracle demo_state 0 3);
    [u32 | u32 | lia | intros data; discriminate].
Defined.

Lemma scan_frame_witness :
  exists r, scan_tidecoin_hash demo_oracle demo_state 0 9 = Some r /\
    target_ptr (mem r) = target_ptr demo_state /\
    (ret r <> 1 -> block_data_ptr (mem r) = block_data_ptr demo_state) /\
    length (block_data_ptr (mem r)) = length (block_data_ptr demo_state) /\
    (forall j, (j < 76)%nat ->
       block_data_ptr (mem r) !! j = block_data_ptr demo_state !! j).
Proof.
  apply (scan_frame demo_oracle demo_state 0 9); u32.
Defined.

Lemma split_scan_equivalence_witness :
  exists r1 r,
    scan_tidecoin_hash demo_oracle demo_state 0 4 = Some r1 /\
    scan_tidecoin_hash demo_oracle demo_state 0 9 = Some r /\
    ((ret r1 <> 0 /\ r = r1) \/
     (ret r1 = 0 /\
      exists r2,
        scan_tidecoin_hash demo_oracle (mem r1) (4 + 1) 9 = Some r2 /\
        ret r2 = ret r /\ last_n r2 = last_n r /\
        block_data_ptr (mem r2) = block_data_ptr (mem r) /\
        target_ptr (mem r2) = target_ptr (mem r) /\
        hashed r1 ++ hashed r2 = hashed r)).
Proof.
  apply (split_scan_equivalence demo_oracle demo_state 0 4 9);
    [u32 | u32 | lia].
Defined.

Lemma nonces_hashed_initial_segment_witness :
  wrap32 (wrap32 (0 - 1) + 1) = 0 /\
  exists r, scan_tidecoin_hash demo_oracle demo_state 0 9 = Some r /\
    0 <= last_n r <= 9 /\
    head (hashed r) = Some (header_for (block_data_ptr demo_state) 0) /\
    hashed r = map (header_for (block_data_ptr demo_state))
                 (seqZ 0 (last_n r - 0 + 1)).
Proof.
  apply (nonces_hashed_initial_segment demo_oracle demo_state 0 9);
    [u32 | u32 | lia].
Defined.

Lemma alloc_region_post_witness :
  let h := {| next := 1025; released := [] |} in
  let region := {| base := 0; aligned := 0; base_size := 0;
                   aligned_size := 0 |} in
  let region' := snd (fst (alloc_region bump_malloc region 1000 h)) in
  base region' = 1025 /\
  aligned region' mod 64 = 0 /\
  1025 <= aligned region' /\
  aligned region' + 1000 <= 1025 + (1000 + 63) /\
  base_size region' = 1000 + 63 /\
  aligned_size region' = 1000.
Proof.
  intros h region region'.
  pose proof (alloc_region_post bump_malloc region 1000 h) as H.
  cbv zeta in H. subst region'.
  destruct (alloc_region bump_malloc region 1000 h) as [[p r] h'].
  cbn [fst snd]. destruct H as (_ & _ & Hok & _).
  apply Hok; [vm_compute; discriminate | lia | lia | reflexivity
             | reflexivity].
Defined.

(** A region obtained from the bump allocator is released once: the base
    pointer, not the aligned one, goes to [free], and a second release
    frees nothing. *)
Example free_region_twice :
  let h := {| next := 1025; released := [] |} in
  let region := {| base := 0; aligned := 0; base_size := 0;
                   aligned_size := 0 |} in
  let '(p, region1, h1) := alloc_region bump_malloc region 1000 h in
  let '(rc2, region2, h2) := free_region bump_free region1 h1 in
  let '(rc3, region3, h3) := free_region bump_free region2 h2 in
  p = 1088 /\ released h2 = [1025] /\ released h3 = [1025] /\
  rc2 = 0 /\ rc3 = 0 /\ region3 = region2.
Proof. vm_compute. repeat split. Qed.

End Instances.

(** * Further properties *)

(** ** fulltest.c: the comparison as an order *)

Section FulltestOrder.

Lemma fulltest_loop_total k a b :
  fulltest_loop k a b = true \/ fulltest_loop k b a = true.
Proof.
  induction k as [|i IH]; cbn [fulltest_loop]; [by left|].
  destruct (Z.gtb_spec (nth i a 0) (nth i b 0)),
    (Z.ltb_spec (nth i a 0) (nth i b 0)),
    (Z.gtb_spec (nth i b 0) (nth i a 0)),
    (Z.ltb_spec (nth i b 0) (nth i a 0)); try lia; auto.
Qed.

Lemma fulltest_loop_trans k a b c :
  fulltest_loop k a b = true -> fulltest_loop k b c = true ->
  fulltest_loop k a c = true.
Proof.
  induction k as [|i IH]; cbn [fulltest_loop]; [done|].
  destruct (Z.gtb_spec (nth i a 0) (nth i b 0)),
    (Z.ltb_spec (nth i a 0) (nth i b 0)),
    (Z.gtb_spec (nth i b 0) (nth i c 0)),
    (Z.ltb_spec (nth i b 0) (nth i c 0)),
    (Z.gtb_spec (nth i a 0) (nth i c 0)),
    (Z.ltb_spec (nth i a 0) (nth i c 0));
    try lia; try discriminate; auto.
Qed.

Lemma fulltest_loop_antisym k a b :
  fulltest_loop k a b = true -> fulltest_loop k b a = true ->
  forall i, (i < k)%nat -> nth i a 0 = nth i b 0.
Proof.
  induction k as [|k IH]; cbn [fulltest_loop]; [intros; lia|].
  destruct (Z.gtb_spec (nth k a 0) (nth k b 0)),
    (Z.ltb_spec (nth k a 0) (nth k b 0)),
    (Z.gtb_spec (nth k b 0) (nth k a 0)),
    (Z.ltb_spec (nth k b 0) (nth k a 0));
    try lia; try discriminate.
  intros Hab Hba i Hi. destruct (Nat.eq_dec i k) as [->|]; [lia|].
  apply IH; [assumption .. | lia].
Qed.

Lemma fulltest_loop_first_difference k i a b :
  (i < k)%nat ->
  (forall j, (i < j < k)%nat -> nth j a 0 = nth j b 0) ->
  nth i a 0 <> nth i b 0 ->
  fulltest_loop k a b = (nth i a 0 <? nth i b 0).
Proof.
  induction k as [|k IH]; [lia|]. intros Hi Hsame Hdiff.
  cbn [fulltest_loop].
  destruct (Nat.eq_dec i k) as [->|Hne].
  - destruct (Z.gtb_spec (nth k a 0) (nth k b 0)),
      (Z.ltb_spec (nth k a 0) (nth k b 0)); try lia; reflexivity.
  - rewrite (Hsame k) by lia.
    rewrite Z.gtb_ltb, !Z.ltb_irrefl.
    apply IH; [lia | | assumption].
    intros j Hj. apply Hsame. lia.
Qed.

(** X1. [fulltest] is a total preorder on word arrays: of two arrays one
    is accepted against the other, and acceptance is transitive (so a
    digest accepted by a target is accepted by every target that the
    first target is accepted by). *)
Theorem fulltest_total_preorder (a b c : list Z) :
  (fulltest a b = true \/ fulltest b a = true) /\
  (fulltest a b = true -> fulltest b c = true -> fulltest a c = true).
Proof.
  unfold fulltest. split.
  - apply fulltest_loop_total.
  - apply fulltest_loop_trans.
Qed.

(** X2. On 8-word arrays [fulltest] is antisymmetric: two arrays that are
    accepted against each other are equal. *)
Theorem fulltest_antisymmetric (a b : list Z) :
  length a = 8%nat -> length b = 8%nat ->
  fulltest a b = true -> fulltest b a = true -> a = b.
Proof.
  unfold fulltest. intros La Lb Hab Hba.
  pose proof (fulltest_loop_antisym 8 a b Hab Hba) as H.
  apply (nth_ext a b 0 0); [congruence|].
  intros n Hn. apply H. lia.
Qed.

(** X3. The highest index at which the two arrays differ decides: when
    [a] and [b] agree at every index above [i] and differ at [i], the
    result is [a[i] < b[i]], whatever the words below [i]. *)
Theorem fulltest_first_difference (i : nat) (a b : list Z) :
  (i < 8)%nat ->
  (forall j, (i < j < 8)%nat -> nth j a 0 = nth j b 0) ->
  nth i a 0 <> nth i b 0 ->
  fulltest a b = (nth i a 0 <? nth i b 0).
Proof. apply fulltest_loop_first_difference. Qed.

End FulltestOrder.

(** ** wasm-wrapper.c: acceptance on the bytes *)

Section AcceptFacts.

Lemma accepts_fulltest target hash :
  accepts (load_u32 target 7) target hash
  = fulltest (as_u32 hash 8) (as_u32 target 8).
Proof.
  unfold accepts. rewrite normalize_hash_id.
  destruct (Z.leb_spec (le32dec hash (4 * 7)) (load_u32 target 7)) as [|Hgt];
    [reflexivity|].
  unfold fulltest. cbn [fulltest_loop]. rewrite !as_u32_top.
  change (load_u32 hash 7) with (le32dec hash (4 * 7)).
  destruct (Z.gtb_spec (le32dec hash (4 * 7)) (load_u32 target 7));
    [reflexivity | lia].
Qed.

Lemma as_u32_is_u32 p n : Forall is_u32 (as_u32 p n).
Proof.
  unfold as_u32. apply List.Forall_forall. intros x Hx.
  apply List.in_map_iff in Hx. destruct Hx as (i & <- & _).
  apply le32dec_range.
Qed.

Lemma as_u32_length p n : length (as_u32 p n) = n.
Proof. unfold as_u32. by rewrite length_map, length_seq. Qed.

(** Eight little-endian words, least significant first, are the 32 bytes
    read as one little-endian number. *)
Lemma big_int_as_u32 p : big_int (as_u32 p 8) = le_bytes_value p 32.
Proof.
  unfold big_int, le_bytes_value, as_u32, load_u32, le32dec.
  cbn [seq map fold_right Nat.mul Nat.add].
  rewrite !Z.shiftl_mul_pow2 by lia.
  change (2 ^ 8) with 256. change (2 ^ 16) with 65536.
  change (2 ^ 24) with 16777216. change (2 ^ 32) with 4294967296.
  lia.
Qed.

(** X4. The loop body accepts a digest exactly when its 32 bytes, read as
    one little-endian 256-bit number, do not exceed the 32 bytes of the
    target read the same way. *)
Theorem accepts_is_le256 (target hash : list byte) :
  accepts (load_u32 target 7) target hash
  = (le_bytes_value hash 32 <=? le_bytes_value target 32).
Proof.
  rewrite accepts_fulltest.
  pose proof (fulltest_loop_low_limbs 8 _ _ (as_u32_is_u32 hash 8)
                (as_u32_is_u32 target 8)) as H.
  change (fulltest_loop 8 (as_u32 hash 8) (as_u32 target 8))
    with (fulltest (as_u32 hash 8) (as_u32 target 8)) in H.
  assert (E : forall p, low_limbs 8 (as_u32 p 8) = le_bytes_value p 32).
  { intros p. rewrite <- big_int_as_u32, big_int_low_limbs.
    by rewrite as_u32_length. }
  rewrite !E in H.
  destruct (Z.leb_spec (le_bytes_value hash 32) (le_bytes_value target 32))
    as [Hle | Hgt].
  - by apply H.
  - destruct (fulltest _ _); [|reflexivity]. destruct H as [H _].
    specialize (H eq_refl). lia.
Qed.

End AcceptFacts.

(** ** wasm-wrapper.c: the buffers that are hashed *)

Section HashedBuffers.

(** On this host the rewrite of words 0..18 through [le32dec] leaves the
    copy of an 80-byte header as it is. *)
Lemma prepare_data_id block_data :
  length block_data = 80%nat -> prepare_data block_data = block_data.
Proof.
  intros Hl. unfold prepare_data, memcpy.
  rewrite take_ge by lia.
  rewrite drop_ge by (rewrite length_replicate; lia).
  rewrite app_nil_r. cbn [fold_left seq Nat.mul Nat.add]. unfold store_u32.
  cbn [Nat.mul Nat.add].
  by rewrite !le32enc_le32dec.
Qed.

Lemma header_for_plain block_data n :
  length block_data = 80%nat ->
  header_for block_data n = be32enc block_data 76 n.
Proof. intros Hl. unfold header_for. by rewrite prepare_data_id. Qed.

(** [be32enc] at offset 76 hides bytes 76..79 of an 80-byte buffer. *)
Lemma be32enc_hides_field p q n :
  length p = 80%nat -> length q = 80%nat -> take 76 p = take 76 q ->
  be32enc p 76 n = be32enc q 76 n.
Proof.
  intros Lp Lq Hpq.
  assert (Hlow : forall j, (j < 76 \/ 80 <= j)%nat -> p !! j = q !! j).
  { intros j [Hj|Hj].
    - apply (f_equal (fun l => l !! j)) in Hpq.
      rewrite !lookup_take in Hpq. by repeat case_decide; try lia.
    - rewrite !lookup_ge_None_2 by lia. reflexivity. }
  apply list_eq. intros j. unfold be32enc, set_byte.
  rewrite !list_lookup_insert, !length_insert, Lp, Lq.
  repeat case_decide; try reflexivity; try lia.
  apply Hlow. lia.
Qed.

Lemma be32enc_take_76 p n :
  take 76 (be32enc p 76 n) = take 76 p.
Proof.
  apply list_eq. intros j. rewrite !lookup_take.
  case_decide; [|reflexivity].
  unfold be32enc. rewrite !set_byte_lookup_ne by lia. reflexivity.
Qed.

Lemma le32enc_take_76 p n :
  take 76 (le32enc p 76 n) = take 76 p.
Proof.
  apply list_eq. intros j. rewrite !lookup_take.
  case_decide; [|reflexivity].
  by rewrite le32enc_lookup_other by lia.
Qed.

Lemma le32enc_le32enc p off a b :
  le32enc (le32enc p off a) off b = le32enc p off b.
Proof.
  apply list_eq. intros j. unfold le32enc, set_byte.
  rewrite !list_lookup_insert, !length_insert.
  repeat case_decide; try reflexivity; lia.
Qed.

(** After the write-back of a winning nonce the header still yields the
    same buffers to hash. *)
Lemma header_for_written_back block_data n j :
  length block_data = 80%nat ->
  header_for (le32enc block_data 76 n) j = header_for block_data j.
Proof.
  intros Hl. rewrite !header_for_plain by (by rewrite ?le32enc_length).
  apply be32enc_hides_field; [by rewrite le32enc_length | assumption |].
  apply le32enc_take_76.
Qed.

End HashedBuffers.

(** ** wasm-wrapper.c: what each return code tells *)

Section ScanVerdicts.

Variable yespower_tls : list byte -> option (list byte).

Local Abbreviation scan := (scan_tidecoin_hash yespower_tls).

Local Ltac by_search st start_nonce max_nonce rc nf Hstop :=
  rewrite (scan_as_search yespower_tls st start_nonce max_nonce)
    by assumption;
  pose proof (search_stop yespower_tls st
                (Z.to_nat (max_nonce - start_nonce)) start_nonce) as Hstop;
  destruct (search yespower_tls st
              (Z.to_nat (max_nonce - start_nonce)) start_nonce) as [rc nf].

(** One iteration, in terms of the oracle and of the two numbers. *)
Lemma try_nonce_verdict st n b :
  try_nonce yespower_tls st n = Some b <->
  exists hash,
    yespower_tls (header_for (block_data_ptr st) n) = Some hash /\
    (le_bytes_value hash 32 <=? le_bytes_value (target_ptr st) 32) = b.
Proof.
  unfold try_nonce.
  destruct (yespower_tls (header_for (block_data_ptr st) n)) as [hash|].
  - rewrite accepts_is_le256. split.
    + intros [= <-]. by exists hash.
    + intros (h & [= <-] & <-). reflexivity.
  - split; [discriminate | intros (h & Hh & _); discriminate].
Qed.

Lemma try_nonce_failure st n :
  try_nonce yespower_tls st n = None <->
  yespower_tls (header_for (block_data_ptr st) n) = None.
Proof.
  unfold try_nonce.
  destruct (yespower_tls (header_for (block_data_ptr st) n));
    split; intros; congruence.
Qed.

(** X5. The loop is a [do ... while]: when [max_nonce <= start_nonce],
    an empty range included, exactly one buffer is hashed, that of
    [start_nonce], and a return of 0 leaves [hashes_done] at 1. *)
Theorem scan_hashes_start_nonce_once st start_nonce max_nonce :
  is_u32 start_nonce -> is_u32 max_nonce -> max_nonce <= start_nonce ->
  exists r, scan st start_nonce max_nonce = Some r /\
    last_n r = start_nonce /\
    hashed r = [header_for (block_data_ptr st) start_nonce] /\
    (ret r = 0 -> get_hashes_done (mem r) = 1).
Proof.
  intros Hs Hm Hle.
  by_search st start_nonce max_nonce rc nf Hstop.
  destruct Hstop as (Hb & _). assert (nf = start_nonce) as -> by lia.
  eexists. split; [reflexivity|].
  cbn [result_of_search ret last_n hashed mem app].
  replace (start_nonce - start_nonce + 1) with 1 by lia.
  repeat split. intros ->. cbn [Z.eqb hashes_done]. reflexivity.
Qed.

(** X6. A return of 1 names the first accepted nonce: the oracle digest of
    the buffer for the winning nonce is, as a little-endian 256-bit
    number, at most the target, and for every nonce from [start_nonce] up
    to it the oracle succeeded with a digest above the target. *)
Theorem found_is_first_accepted st start_nonce max_nonce :
  is_u32 start_nonce -> is_u32 max_nonce ->
  exists r, scan st start_nonce max_nonce = Some r /\
    (ret r = 1 ->
     (exists hash,
        yespower_tls (header_for (block_data_ptr st) (last_n r)) = Some hash /\
        le_bytes_value hash 32 <= le_bytes_value (target_ptr st) 32) /\
     forall j, start_nonce <= j < last_n r ->
       exists hash,
         yespower_tls (header_for (block_data_ptr st) j) = Some hash /\
         le_bytes_value (target_ptr st) 32 < le_bytes_value hash 32).
Proof.
  intros Hs Hm.
  by_search st start_nonce max_nonce rc nf Hstop.
  destruct Hstop as (_ & Hrej & Hrc).
  eexists. split; [reflexivity|].
  cbn [result_of_search ret last_n]. intros ->. split.
  - destruct Hrc as [[? _]|[[_ Hacc]|[? _]]]; try lia.
    apply try_nonce_verdict in Hacc. destruct Hacc as (h & Hh & Hle).
    exists h. split; [exact Hh | lia].
  - intros j Hj. specialize (Hrej j Hj).
    apply try_nonce_verdict in Hrej. destruct Hrej as (h & Hh & Hle).
    exists h. split; [exact Hh | lia].
Qed.

(** X7. A return of 0 means the range is exhausted: the counter stopped
    at [max_nonce], and for every nonce of [start_nonce .. max_nonce] the
    oracle succeeded with a digest above the target. *)
Theorem not_found_is_exhaustive st start_nonce max_nonce :
  is_u32 start_nonce -> is_u32 max_nonce -> start_nonce <= max_nonce ->
  exists r, scan st start_nonce max_nonce = Some r /\
    (ret r = 0 ->
     last_n r = max_nonce /\
     forall j, start_nonce <= j <= max_nonce ->
       exists hash,
         yespower_tls (header_for (block_data_ptr st) j) = Some hash /\
         le_bytes_value (target_ptr st) 32 < le_bytes_value hash 32).
Proof.
  intros Hs Hm Hle.
  by_search st start_nonce max_nonce rc nf Hstop.
  destruct Hstop as (_ & Hrej & Hrc).
  eexists. split; [reflexivity|].
  cbn [result_of_search ret last_n]. intros ->.
  destruct Hrc as [[? _]|[[? _]|(_ & Hlast & ->)]]; try lia.
  split; [lia|]. intros j Hj.
  assert (Hv : try_nonce yespower_tls st j = Some false).
  { destruct (Z.eq_dec j (start_nonce
                          + Z.of_nat (Z.to_nat (max_nonce - start_nonce))))
      as [->|]; [exact Hlast | apply Hrej; lia]. }
  apply try_nonce_verdict in Hv. destruct Hv as (h & Hh & Hgt).
  exists h. split; [exact Hh | lia].
Qed.

(** X8. The return code is -1, 0 or 1, and it is -1 exactly when the
    oracle failed on the last buffer it was given; in that case memory is
    what it was before the call. *)
Theorem error_is_oracle_failure st start_nonce max_nonce :
  is_u32 start_nonce -> is_u32 max_nonce ->
  exists r, scan st start_nonce max_nonce = Some r /\
    (ret r = -1 \/ ret r = 0 \/ ret r = 1) /\
    (ret r = -1 <->
     yespower_tls (header_for (block_data_ptr st) (last_n r)) = None) /\
    (ret r = -1 -> mem r = st).
Proof.
  intros Hs Hm.
  by_search st start_nonce max_nonce rc nf Hstop.
  destruct Hstop as (_ & _ & Hrc).
  eexists. split; [reflexivity|].
  cbn [result_of_search ret last_n mem].
  rewrite <- try_nonce_failure.
  destruct Hrc as [[-> Hv]|[[-> Hv]|(-> & Hv & _)]]; rewrite Hv;
    (split; [lia|]); (split; [split; (congruence || lia)|]);
    first [reflexivity | lia].
Qed.

(** X9. Whatever the return code, the number of buffers hashed is
    [n - start_nonce + 1] for the last value [n] of the counter, and when
    the return code is 0 or 1 [hashes_done] is that number reduced modulo
    [2^32]. *)
Theorem hashes_done_counts_oracle_calls st start_nonce max_nonce :
  is_u32 start_nonce -> is_u32 max_nonce ->
  exists r, scan st start_nonce max_nonce = Some r /\
    Z.of_nat (length (hashed r)) = last_n r - start_nonce + 1 /\
    (ret r <> -1 ->
     get_hashes_done (mem r) = wrap32 (Z.of_nat (length (hashed r)))).
Proof.
  intros Hs Hm.
  by_search st start_nonce max_nonce rc nf Hstop.
  destruct Hstop as (Hb & _).
  eexists. split; [reflexivity|].
  cbn [result_of_search ret last_n hashed mem app].
  rewrite length_map, length_seqZ.
  split; [lia|]. intros Hrc.
  destruct (Z.eqb_spec rc (-1)); [contradiction|].
  unfold get_hashes_done. cbn [hashes_done]. f_equal. lia.
Qed.

End ScanVerdicts.

(** ** wasm-wrapper.c: the header, the nonce field and the digest *)

Section ScanHeader.

Variable yespower_tls : list byte -> option (list byte).

Local Abbreviation scan := (scan_tidecoin_hash yespower_tls).
Local Abbreviation single := (compute_single_hash yespower_tls).

Local Ltac by_search st start_nonce max_nonce rc nf Hstop :=
  rewrite (scan_as_search yespower_tls st start_nonce max_nonce)
    by assumption;
  pose proof (search_stop yespower_tls st
                (Z.to_nat (max_nonce - start_nonce)) start_nonce) as Hstop;
  destruct (search yespower_tls st
              (Z.to_nat (max_nonce - start_nonce)) start_nonce) as [rc nf].

(** The search reads bytes 0..75 of the header and the target. *)
Lemma search_same_fields st st' k m :
  (forall j, header_for (block_data_ptr st) j
             = header_for (block_data_ptr st') j) ->
  target_ptr st = target_ptr st' ->
  search yespower_tls st k m = search yespower_tls st' k m.
Proof.
  intros Hh Ht. revert m. induction k as [|k IH]; intros m; cbn [search];
    unfold try_nonce; rewrite Hh, Ht; [reflexivity|].
  by rewrite IH.
Qed.

(** X10. For an 80-byte header, every buffer given to the oracle is the
    header with bytes 76..79 replaced by the big-endian nonce: it has
    [get_block_size] bytes and its first 76 bytes are the caller's. *)
Theorem hashed_buffers_are_header_with_nonce st start_nonce max_nonce :
  is_u32 start_nonce -> is_u32 max_nonce ->
  length (block_data_ptr st) = 80%nat ->
  exists r, scan st start_nonce max_nonce = Some r /\
    hashed r = map (be32enc (block_data_ptr st) 76)
                 (seqZ start_nonce (last_n r - start_nonce + 1)) /\
    Forall (fun data =>
              Z.of_nat (length data) = get_block_size /\
              take 76 data = take 76 (block_data_ptr st))
      (hashed r).
Proof.
  intros Hs Hm Hl.
  by_search st start_nonce max_nonce rc nf Hstop. clear Hstop.
  eexists. split; [reflexivity|].
  cbn [result_of_search last_n hashed app].
  assert (E : map (header_for (block_data_ptr st))
                (seqZ start_nonce (nf - start_nonce + 1))
              = map (be32enc (block_data_ptr st) 76)
                  (seqZ start_nonce (nf - start_nonce + 1))).
  { apply map_ext. intros n. by apply header_for_plain. }
  rewrite E. split; [reflexivity|].
  apply List.Forall_forall. intros data Hin.
  apply List.in_map_iff in Hin. destruct Hin as (n & <- & _).
  rewrite be32enc_length, Hl, be32enc_take_76. by split.
Qed.

(** X11. The nonce field of the input header is not read: two 80-byte
    headers that agree on bytes 0..75, scanned against the same target
    and range, give the same return code, the same last nonce and the
    same hashed buffers. *)
Theorem scan_ignores_nonce_field st st' start_nonce max_nonce :
  is_u32 start_nonce -> is_u32 max_nonce ->
  length (block_data_ptr st) = 80%nat ->
  length (block_data_ptr st') = 80%nat ->
  take 76 (block_data_ptr st) = take 76 (block_data_ptr st') ->
  target_ptr st = target_ptr st' ->
  exists r r',
    scan st start_nonce max_nonce = Some r /\
    scan st' start_nonce max_nonce = Some r' /\
    ret r = ret r' /\ last_n r = last_n r' /\ hashed r = hashed r'.
Proof.
  intros Hs Hm Hl Hl' Hfields Htarget.
  assert (Hh : forall j, header_for (block_data_ptr st) j
                         = header_for (block_data_ptr st') j).
  { intros j. rewrite !header_for_plain by assumption.
    by apply be32enc_hides_field. }
  rewrite !scan_as_search by assumption.
  rewrite (search_same_fields st st') by assumption.
  destruct (search yespower_tls st' _ start_nonce) as [rc nf].
  do 2 eexists. split; [reflexivity|]. split; [reflexivity|].
  cbn [result_of_search ret last_n hashed app].
  repeat split. apply map_ext. intros j. apply Hh.
Qed.

(** X12. A winning nonce is confirmed by a second scan: after a return of
    1 at nonce [n] on an 80-byte header, the scan of [n .. n] in the
    memory left behind returns 1 at [n] again, hashes the very buffer that
    won, leaves the header as it is and sets [hashes_done] to 1. *)
Theorem rescan_confirms_winner st start_nonce max_nonce :
  is_u32 start_nonce -> is_u32 max_nonce ->
  length (block_data_ptr st) = 80%nat ->
  exists r, scan st start_nonce max_nonce = Some r /\
    (ret r = 1 ->
     exists r', scan (mem r) (last_n r) (last_n r) = Some r' /\
       ret r' = 1 /\ last_n r' = last_n r /\
       last (hashed r) = head (hashed r') /\
       length (hashed r') = 1%nat /\
       block_data_ptr (mem r') = block_data_ptr (mem r) /\
       get_hashes_done (mem r') = 1).
Proof.
  intros Hs Hm Hl.
  pose proof (search_stop_u32 yespower_tls st _ _ Hs Hm) as Hu.
  by_search st start_nonce max_nonce rc nf Hstop.
  cbn [snd] in Hu. destruct Hstop as (Hb & _ & Hrc).
  eexists. split; [reflexivity|].
  cbn [result_of_search ret last_n mem hashed app]. intros ->.
  destruct Hrc as [[? _]|[[_ Hacc]|[? _]]]; try lia.
  cbn [Z.eqb Pos.eqb].
  set (st1 := {| block_data_ptr := le32enc (block_data_ptr st) (19 * 4) nf;
                 target_ptr := target_ptr st;
                 hashes_done := wrap32 (nf - start_nonce + 1) |}).
  assert (Hh : forall j, header_for (block_data_ptr st1) j
                         = header_for (block_data_ptr st) j).
  { intros j. by apply (header_for_written_back _ nf j). }
  rewrite (scan_as_search yespower_tls st1 nf nf) by assumption.
  rewrite (search_same_fields st1 st) by (assumption || reflexivity).
  replace (Z.to_nat (nf - nf)) with 0%nat by lia.
  cbn [search]. rewrite Hacc.
  eexists. split; [reflexivity|].
  cbn [result_of_search ret last_n mem hashed app Z.eqb Pos.eqb
         block_data_ptr hashes_done].
  replace (nf - nf + 1) with 1 by lia.
  change (seqZ nf 1) with [nf]. cbn [map head length].
  rewrite hashed_last by lia. rewrite Hh.
  repeat split. subst st1. cbn [block_data_ptr]. apply le32enc_le32enc.
Qed.

(** X13. [compute_single_hash] returns -1 and leaves the output buffer
    alone when the oracle fails on the first 80 bytes of the input;
    otherwise it returns 0 and, for a 32-byte digest and an output buffer
    of at least [get_hash_size] bytes, the first 32 bytes of the output
    are the digest as the oracle produced it and the rest of the buffer,
    like its length, is unchanged. *)
Theorem compute_single_hash_frame (block_data hash_output : list byte) :
  (yespower_tls (take 80 block_data) = None ->
   single block_data hash_output = (-1, hash_output)) /\
  (forall hash,
     yespower_tls (take 80 block_data) = Some hash ->
     length hash = 32%nat ->
     get_hash_size <= Z.of_nat (length hash_output) ->
     exists out,
       single block_data hash_output = (0, out) /\
       take 32 out = hash /\
       drop 32 out = drop 32 hash_output /\
       length out = length hash_output).
Proof.
  unfold compute_single_hash, get_hash_size. split.
  - by intros ->.
  - intros hash -> Hh Ho. eexists. split; [reflexivity|].
    unfold memcpy. rewrite (take_ge hash) by lia.
    rewrite take_app_length' by done.
    rewrite drop_app_length' by done.
    rewrite length_app, length_drop. repeat split. lia.
Qed.

(** X14. The digest that won can be recomputed from the header the scan
    leaves, once the nonce field is put back in big-endian order: after a
    return of 1 on an 80-byte header, [compute_single_hash] on the header
    with [be32enc] of the written-back nonce succeeds, and the digest it
    copies out is at most the target. *)
Theorem winning_digest_recomputed st start_nonce max_nonce hash_output :
  is_u32 start_nonce -> is_u32 max_nonce ->
  length (block_data_ptr st) = 80%nat ->
  exists r, scan st start_nonce max_nonce = Some r /\
    (ret r = 1 ->
     let header := block_data_ptr (mem r) in
     exists hash,
       single (be32enc header 76 (le32dec header 76)) hash_output
       = (0, memcpy hash_output hash 32) /\
       le_bytes_value hash 32 <= le_bytes_value (target_ptr st) 32).
Proof.
  intros Hs Hm Hl.
  pose proof (search_stop_u32 yespower_tls st _ _ Hs Hm) as Hu.
  by_search st start_nonce max_nonce rc nf Hstop.
  cbn [snd] in Hu. destruct Hstop as (_ & _ & Hrc).
  eexists. split; [reflexivity|].
  cbn [result_of_search ret mem]. intros ->.
  destruct Hrc as [[? _]|[[_ Hacc]|[? _]]]; try lia.
  cbn [Z.eqb Pos.eqb block_data_ptr]. cbv zeta.
  apply try_nonce_verdict in Hacc. destruct Hacc as (h & Hh & Hle).
  exists h. split; [|lia].
  change (19 * 4)%nat with 76%nat.
  rewrite le32dec_le32enc by (assumption || lia).
  unfold compute_single_hash.
  rewrite take_ge by (rewrite be32enc_length, le32enc_length; lia).
  rewrite <- (header_for_plain (le32enc (block_data_ptr st) 76 nf))
    by (by rewrite le32enc_length).
  rewrite header_for_written_back by assumption.
  by rewrite Hh.
Qed.

End ScanHeader.

(** ** yespower-platform.c: acquiring and releasing *)

Section RegionLife.

Context {heap : Type}.
Variable malloc : Z -> heap -> Z * heap.
Variable free : Z -> heap -> heap.

(** X15. A region obtained from [alloc_region] is released by one call of
    [free] on the pointer [malloc] returned, whatever the aligned pointer
    is; when [malloc] returned [NULL], releasing calls nothing.  Either
    way the region is empty afterwards. *)
Theorem alloc_then_free region size h :
  exists p region1 h1 region2 h2,
    alloc_region malloc region size h = (p, region1, h1) /\
    free_region free region1 h1 = (0, region2, h2) /\
    (p, h1) = (aligned region1, snd (malloc (wrap32 (size + 63)) h)) /\
    h2 = (let b := fst (malloc (wrap32 (size + 63)) h) in
          if b =? 0 then h1 else free b h1) /\
    region2 = init_region region.
Proof.
  unfold alloc_region, free_region.
  destruct (malloc (wrap32 (size + 63)) h) as [b h1]. cbn [fst snd].
  destruct (Z.eqb_spec b 0) as [->|Hb]; cbn [negb base aligned].
  - do 5 eexists. repeat split.
  - assert (Hz : (b =? 0) = false) by (by apply Z.eqb_neq).
    do 5 eexists. split; [reflexivity|].
    cbn [base aligned]. rewrite !Hz. cbn [negb]. repeat split.
Qed.

End RegionLife.

Section RegionAlignment.

Context {heap : Type}.
Variable malloc : Z -> heap -> Z * heap.

(** X16. The usable pointer is the block's address rounded up to the next
    multiple of 64: it is the least multiple of 64 not below the address
    [malloc] returned, so it is that address itself when the block is
    already aligned, and never more than 63 bytes above it. *)
Theorem aligned_rounds_up region size h :
  let b := fst (malloc (wrap32 (size + 63)) h) in
  let region' := snd (fst (alloc_region malloc region size h)) in
  0 < b -> b + 63 < 2 ^ 32 ->
  aligned region' = 64 * ((b + 63) / 64) /\
  (forall m, m mod 64 = 0 -> b <= m -> aligned region' <= m) /\
  (b mod 64 = 0 -> aligned region' = b) /\
  aligned region' - b <= 63.
Proof.
  intros b region' Hpos Hend. subst b region'. unfold alloc_region.
  destruct (malloc (wrap32 (size + 63)) h) as [b h1].
  cbn [fst snd] in Hpos, Hend |- *.
  rewrite (proj2 (Z.eqb_neq b 0)) by lia. cbn [negb fst snd aligned].
  assert (Hb63 : wrap32 (b + 63) = b + 63).
  { apply wrap32_small. unfold is_u32. lia. }
  rewrite Hb63.
  assert (E : Z.land (b + 63) 63 = (b + 63) mod 64).
  { change 63 with (Z.ones 6) at 2. by rewrite Z.land_ones by lia. }
  rewrite E.
  assert (Ha : wrap32 (b + 63 - (b + 63) mod 64) = b + 63 - (b + 63) mod 64).
  { apply wrap32_small. unfold is_u32. Z.div_mod_to_equations. lia. }
  rewrite Ha.
  split; [Z.div_mod_to_equations; lia|].
  split; [intros m Hm Hle; Z.div_mod_to_equations; lia|].
  split; [intros Hal|]; Z.div_mod_to_equations; lia.
Qed.

(** X17. The request [size + 63] is computed as a 32-bit [size_t]: for a
    [size] within 63 of [2^32] it wraps, [malloc] is asked for
    [size + 63 - 2^32] bytes, fewer than 63, and when that small block is
    granted the region records [aligned_size = size], more than the
    [base_size] it records for the whole block. *)
Theorem alloc_region_request_wraps region size h :
  2 ^ 32 - 63 <= size < 2 ^ 32 ->
  let n := size + 63 - 2 ^ 32 in
  let region' := snd (fst (alloc_region malloc region size h)) in
  0 <= n < 63 /\
  snd (alloc_region malloc region size h) = snd (malloc n h) /\
  (fst (malloc n h) <> 0 ->
   base region' = fst (malloc n h) /\
   base_size region' = n /\
   aligned_size region' = size /\
   base_size region' < aligned_size region').
Proof.
  intros Hsize n region'. subst region'.
  assert (Hw : wrap32 (size + 63) = n).
  { subst n. unfold wrap32. Z.div_mod_to_equations. lia. }
  unfold alloc_region. rewrite Hw.
  destruct (malloc n h) as [b h1]. cbn [fst snd].
  split; [subst n; lia|].
  destruct (Z.eqb_spec b 0) as [->|Hb]; cbn [negb fst snd];
    (split; [reflexivity|]); intros Hne; [contradiction|].
  cbn [base base_size aligned_size].
  rewrite (proj2 (Z.eqb_neq b 0) Hb). cbn [negb].
  repeat split. subst n. lia.
Qed.

End RegionAlignment.

(** ** Worked instances of the further properties *)

Section MoreInstances.

Local Ltac u32 := unfold is_u32; lia.

Lemma fulltest_total_preorder_witness :
  fulltest [9; 0; 0; 0; 0; 0; 0; 1] [0; 0; 0; 0; 0; 0; 0; 3] = true.
Proof.
  apply (proj2 (fulltest_total_preorder [9; 0; 0; 0; 0; 0; 0; 1]
                  [0; 5; 0; 0; 0; 0; 0; 2] [0; 0; 0; 0; 0; 0; 0; 3]));
    reflexivity.
Defined.

Lemma fulltest_antisymmetric_witness :
  as_u32 (replicate 32 Byte.x01) 8 = replicate 8 16843009.
Proof.
  apply fulltest_antisymmetric; reflexivity.
Defined.

Lemma fulltest_first_difference_witness :
  fulltest [7; 7; 7; 1; 0; 0; 0; 2] [0; 0; 0; 5; 0; 0; 0; 2]
  = (nth 3 [7; 7; 7; 1; 0; 0; 0; 2] 0 <? nth 3 [0; 0; 0; 5; 0; 0; 0; 2] 0).
Proof.
  apply fulltest_first_difference; [lia | | discriminate].
  intros j Hj.
  assert (j = 4 \/ j = 5 \/ j = 6 \/ j = 7)%nat as [->|[->|[->| ->]]] by lia;
    reflexivity.
Defined.

Lemma scan_hashes_start_nonce_once_witness :
  exists r, scan_tidecoin_hash demo_oracle demo_state 9 3 = Some r /\
    last_n r = 9 /\
    hashed r = [header_for (block_data_ptr demo_state) 9] /\
    (ret r = 0 -> get_hashes_done (mem r) = 1).
Proof.
  apply (scan_hashes_start_nonce_once demo_oracle demo_state 9 3);
    [u32 | u32 | lia].
Defined.

Lemma found_is_first_accepted_witness :
  exists r, scan_tidecoin_hash demo_oracle demo_state 0 9 = Some r /\
    (ret r = 1 ->
     (exists hash,
        demo_oracle (header_for (block_data_ptr demo_state) (last_n r))
        = Some hash /\
        le_bytes_value hash 32 <= le_bytes_value (target_ptr demo_state) 32) /\
     forall j, 0 <= j < last_n r ->
       exists hash,
         demo_oracle (header_for (block_data_ptr demo_state) j) = Some hash /\
         le_bytes_value (target_ptr demo_state) 32 < le_bytes_value hash 32).
Proof.
  apply (found_is_first_accepted demo_oracle demo_state 0 9); u32.
Defined.

Lemma not_found_is_exhaustive_witness :
  exists r, scan_tidecoin_hash demo_oracle demo_state 0 6 = Some r /\
    (ret r = 0 ->
     last_n r = 6 /\
     forall j, 0 <= j <= 6 ->
       exists hash,
         demo_oracle (header_for (block_data_ptr demo_state) j) = Some hash /\
         le_bytes_value (target_ptr demo_state) 32 < le_bytes_value hash 32).
Proof.
  apply (not_found_is_exhaustive demo_oracle demo_state 0 6);
    [u32 | u32 | lia].
Defined.

Lemma error_is_oracle_failure_witness :
  exists r, scan_tidecoin_hash demo_oracle demo_state 10 20 = Some r /\
    (ret r = -1 \/ ret r = 0 \/ ret r = 1) /\
    (ret r = -1 <->
     demo_oracle (header_for (block_data_ptr demo_state) (last_n r)) = None) /\
    (ret r = -1 -> mem r = demo_state).
Proof.
  apply (error_is_oracle_failure demo_oracle demo_state 10 20); u32.
Defined.

Lemma hashes_done_counts_oracle_calls_witness :
  exists r, scan_tidecoin_hash demo_oracle demo_state 0 9 = Some r /\
    Z.of_nat (length (hashed r)) = last_n r - 0 + 1 /\
    (ret r <> -1 ->
     get_hashes_done (mem r) = wrap32 (Z.of_nat (length (hashed r)))).
Proof.
  apply (hashes_done_counts_oracle_calls demo_oracle demo_state 0 9); u32.
Defined.

Lemma hashed_buffers_are_header_with_nonce_witness :
  exists r, scan_tidecoin_hash demo_oracle demo_state 0 9 = Some r /\
    hashed r = map (be32enc (block_data_ptr demo_state) 76)
                 (seqZ 0 (last_n r - 0 + 1)) /\
    Forall (fun data =>
              Z.of_nat (length data) = get_block_size /\
              take 76 data = take 76 (block_data_ptr demo_state))
      (hashed r).
Proof.
  apply (hashed_buffers_are_header_with_nonce demo_oracle demo_state 0 9);
    [u32 | u32 | reflexivity].
Defined.

Lemma scan_ignores_nonce_field_witness :
  exists r r',
    scan_tidecoin_hash demo_oracle demo_state 0 9 = Some r /\
    scan_tidecoin_hash demo_oracle demo_state_stale 0 9 = Some r' /\
    ret r = ret r' /\ last_n r = last_n r' /\ hashed r = hashed r'.
Proof.
  apply (scan_ignores_nonce_field demo_oracle demo_state demo_state_stale
           0 9); [u32 | u32 | reflexivity ..].
Defined.

Lemma rescan_confirms_winner_witness :
  exists r, scan_tidecoin_hash demo_oracle demo_state 0 9 = Some r /\
    (ret r = 1 ->
     exists r',
       scan_tidecoin_hash demo_oracle (mem r) (last_n r) (last_n r)
       = Some r' /\
       ret r' = 1 /\ last_n r' = last_n r /\
       last (hashed r) = head (hashed r') /\
       length (hashed r') = 1%nat /\
       block_data_ptr (mem r') = block_data_ptr (mem r) /\
       get_hashes_done (mem r') = 1).
Proof.
  apply (rescan_confirms_winner demo_oracle demo_state 0 9);
    [u32 | u32 | reflexivity].
Defined.

Lemma compute_single_hash_frame_witness :
  exists out,
    compute_single_hash demo_oracle (replicate 80 Byte.x00)
      (replicate 40 Byte.x01) = (0, out) /\
    take 32 out = replicate 32 Byte.xff /\
    drop 32 out = drop 32 (replicate 40 Byte.x01) /\
    length out = length (replicate 40 Byte.x01).
Proof.
  apply (proj2 (compute_single_hash_frame demo_oracle
                  (replicate 80 Byte.x00) (replicate 40 Byte.x01)));
    [reflexivity | reflexivity | unfold get_hash_size; cbn; lia].
Defined.

Lemma winning_digest_recomputed_witness :
  exists r, scan_tidecoin_hash demo_oracle demo_state 0 9 = Some r /\
    (ret r = 1 ->
     let header := block_data_ptr (mem r) in
     exists hash,
       compute_single_hash demo_oracle
         (be32enc header 76 (le32dec header 76)) (replicate 32 Byte.x00)
       = (0, memcpy (replicate 32 Byte.x00) hash 32) /\
       le_bytes_value hash 32 <= le_bytes_value (target_ptr demo_state) 32).
Proof.
  apply (winning_digest_recomputed demo_oracle demo_state 0 9);
    [u32 | u32 | reflexivity].
Defined.

Lemma aligned_rounds_up_witness :
  let h := {| next := 1025; released := [] |} in
  let region := {| base := 0; aligned := 0; base_size := 0;
                   aligned_size := 0 |} in
  let region' := snd (fst (alloc_region bump_malloc region 1000 h)) in
  aligned region' = 64 * ((1025 + 63) / 64) /\
  (forall m, m mod 64 = 0 -> 1025 <= m -> aligned region' <= m) /\
  (1025 mod 64 = 0 -> aligned region' = 1025) /\
  aligned region' - 1025 <= 63.
Proof.
  intros h region region'.
  pose proof (aligned_rounds_up bump_malloc region 1000 h) as H.
  cbv zeta in H. apply H; reflexivity.
Defined.

Lemma alloc_region_request_wraps_witness :
  let h := {| next := 1025; released := [] |} in
  let region := {| base := 0; aligned := 0; base_size := 0;
                   aligned_size := 0 |} in
  let region' := snd (fst (alloc_region bump_malloc region 4294967295 h)) in
  base region' = 1025 /\ base_size region' = 62 /\
  aligned_size region' = 4294967295 /\
  base_size region' < aligned_size region'.
Proof.
  intros h region region'.
  pose proof (alloc_region_request_wraps bump_malloc region 4294967295 h)
    as H.
  cbv zeta in H. destruct H as (_ & _ & H); [lia|].
  apply H. vm_compute. discriminate.
Defined.

End MoreInstances.
